(** * DebateMate: the session orchestration core

    A shallow embedding of the session logic of the DebateMate front end:
    [types.ts], [constants.ts], [services/geminiService.ts],
    [components/SpeakerRecorder.tsx], [components/DebateDashboard.tsx] and
    [App.tsx].

    Conventions of the embedding.
    - A JavaScript [number] that holds a count of seconds, a rank or a score
      is an integer of [Z]; the scores of the examples are integers, which
      double arithmetic adds exactly.
    - A JavaScript string is a [string]; each character stands for one code
      unit below 256.
    - An optional field ([score?: number]) and a nullable one
      ([MotionContext | null]) are [option]s.
    - React state is passed explicitly.  A handler closes over the [session]
      it was rendered with and reports every change through [onUpdate]; it is
      embedded as a function from that session (and the answers of the
      outside world) to the list of effects it performs, in order. *)

From Stdlib Require Import ZArith List String Ascii Bool Lia DecimalString.
From Stdlib Require Import DecimalZ DecimalPos Permutation Sorted.
Import ListNotations.

Open Scope Z_scope.
Open Scope string_scope.

(** ** JavaScript helpers *)

(** [x || d] on strings: the empty string and [undefined] are falsy. *)
Definition str_or (x : option string) (d : string) : string :=
  match x with
  | Some s => if String.eqb s "" then d else s
  | None => d
  end.

(** [x || 0] on numbers: [0] and [undefined] are falsy. *)
Definition num_or_zero (x : option Z) : Z :=
  match x with
  | Some z => if Z.eqb z 0 then 0 else z
  | None => 0
  end.

(** The white space [String.prototype.trim] removes, among code units
    below 256: TAB, LF, VT, FF, CR, SPACE and NBSP. *)
Definition is_white_space (c : ascii) : bool :=
  let n := nat_of_ascii c in
  existsb (Nat.eqb n) [9; 10; 11; 12; 13; 32; 160]%nat.

(** [!s.trim()]: the trimmed string is empty exactly when every code unit
    of [s] is white space. *)
Definition trim_is_empty (s : string) : bool :=
  forallb is_white_space (list_ascii_of_string s).

(** The result of awaiting a promise. *)
Inductive Outcome (A : Type) : Type :=
| Resolved (a : A)
| Rejected.
Arguments Resolved {A} a.
Arguments Rejected {A}.

(** ** types.ts *)

Inductive Team : Type := OG | OO | CG | CO.

(** The string value of each member of [enum Team]. *)
Definition Team_value (t : Team) : string :=
  match t with
  | OG => "Opening Government"
  | OO => "Opening Opposition"
  | CG => "Closing Government"
  | CO => "Closing Opposition"
  end.

Inductive SpeakerRole : Type := PM | LO | DPM | DLO | MG | MO | GW | OW.

Definition Blob : Type := string.

Module Speaker.
Record t : Type := mk {
  id : string;
  role : SpeakerRole;
  team : Team;
  name : string;
  isCompleted : bool;
  audioBlob : option Blob;
  transcription : option string;
  score : option Z;
  feedback : option string;
  speechTimeLeft : Z;
  isSpeechTimerRunning : bool
}.
End Speaker.

(** [Partial<Speaker>]: every key may be absent ([None]).  A key of an
    optional field that is present may still hold [undefined]. *)
Module PartialSpeaker.
Record t : Type := mk {
  id : option string;
  role : option SpeakerRole;
  team : option Team;
  name : option string;
  isCompleted : option bool;
  audioBlob : option (option Blob);
  transcription : option (option string);
  score : option (option Z);
  feedback : option (option string);
  speechTimeLeft : option Z;
  isSpeechTimerRunning : option bool
}.
End PartialSpeaker.

(** [TeamResult.team] is declared a [Team], but it is filled by the cast
    [r.team as Team] of a string that came from outside: a string here. *)
Module TeamResult.
Record t : Type := mk {
  team : string;
  rank : Z;
  totalScore : Z;
  reasoning : string
}.
End TeamResult.

Module MotionContext.
Record t : Type := mk {
  detectedLanguage : string;
  specificCriteria : list string;
  backgroundInfo : string
}.
End MotionContext.

Inductive Phase : Type := setup | prep | debate | results.

Module DebateSession.
Record t : Type := mk {
  id : string;
  title : string;
  createdAt : Z;
  topic : string;
  motionContext : option MotionContext.t;
  isPrepTime : bool;
  prepTimeLeft : Z;
  speakers : list Speaker.t;
  isAdjudicating : bool;
  finalRankings : option (list TeamResult.t);
  overallAdjudication : option string;
  phase : Phase
}.
End DebateSession.

Module AnalysisResult.
Record t : Type := mk {
  transcription : string;
  score : Z;
  feedback : string
}.
End AnalysisResult.

(** One entry of [RankingResult.rankings]. *)
Module Ranking.
Record t : Type := mk {
  team : string;
  rank : Z;
  reasoning : string
}.
End Ranking.

(** [RankingResult] as it is at run time: [JSON.parse(...) as RankingResult]
    checks nothing, so both fields may be missing. *)
Module RankingResult.
Record t : Type := mk {
  rankings : option (list Ranking.t);
  overallAdjudication : option string
}.
End RankingResult.

(** ** constants.ts *)

Definition SPEECH_TIME_SECONDS : Z := 7 * 60 + 20.
Definition PREP_TIME_SECONDS : Z := 15 * 60.

Definition initial_speaker (i : string) (r : SpeakerRole) (t : Team) : Speaker.t :=
  Speaker.mk i r t "" false None None None None SPEECH_TIME_SECONDS false.

Definition INITIAL_SPEAKERS : list Speaker.t :=
  [ initial_speaker "1" PM OG;
    initial_speaker "2" LO OO;
    initial_speaker "3" DPM OG;
    initial_speaker "4" DLO OO;
    initial_speaker "5" MG CG;
    initial_speaker "6" MO CO;
    initial_speaker "7" GW CG;
    initial_speaker "8" OW CO ].

(** ** services/geminiService.ts

    The three functions of the service send one [generateContent] request
    and decode its answer.  The request leaves the program; what comes back
    is an input of the embedding. *)

Module MotionJson.
Record t : Type := mk {
  detectedLanguage : option string;
  specificCriteria : option (list string);
  backgroundInfo : option string
}.
End MotionJson.

Module SpeechJson.
(** [score] is [None] when [typeof result.score] is not ['number']. *)
Record t : Type := mk {
  transcription : option string;
  score : option Z;
  feedback : option string
}.
End SpeechJson.

Module GeminiService.

(** The answer to a [generateContent] request, as far as the caller can
    tell the cases apart. *)
Inductive Reply (J : Type) : Type :=
| ApiError            (* [generateContent] rejects *)
| Malformed           (* [JSON.parse] throws *)
| Parsed (result : J) (* the value of [JSON.parse(response.text || '{}')] *).
Arguments ApiError {J}.
Arguments Malformed {J}.
Arguments Parsed {J} result.

(** [!process.env.API_KEY] is false when the key is set and not empty. *)
Definition has_api_key (API_KEY : option string) : bool :=
  match API_KEY with
  | Some k => negb (String.eqb k "")
  | None => false
  end.

Definition fallback_context : MotionContext.t :=
  MotionContext.mk
    "English (Fallback)"
    ["Analyze based on general logic due to search error."]
    "Could not retrieve online context.".

Definition analyzeMotionContext (API_KEY : option string)
    (reply : Reply MotionJson.t) (motion : string) : Outcome MotionContext.t :=
  if negb (has_api_key API_KEY) then Rejected
  else
    match reply with
    | Parsed result =>
        Resolved (MotionContext.mk
          (str_or (MotionJson.detectedLanguage result) "Unknown")
          (match MotionJson.specificCriteria result with
           | Some l => l
           | None => []
           end)
          (str_or (MotionJson.backgroundInfo result) "No context found."))
    | ApiError | Malformed =>
        (* catch: fallback if search fails *)
        Resolved fallback_context
    end.

(** [base64Audio] is the outcome of [blobToBase64], awaited before the
    [try]. *)
Definition analyzeSpeakerAudio (API_KEY : option string)
    (base64Audio : Outcome string) (reply : Reply SpeechJson.t)
    (audioBlob : Blob) (role : SpeakerRole) (motion : string)
    (motionContext : option MotionContext.t) : Outcome AnalysisResult.t :=
  if negb (has_api_key API_KEY) then Rejected
  else
    match base64Audio with
    | Rejected => Rejected
    | Resolved _ =>
        match reply with
        | Parsed result =>
            Resolved (AnalysisResult.mk
              (str_or (SpeechJson.transcription result) "Transcription failed.")
              (match SpeechJson.score result with
               | Some n => n
               | None => 0
               end)
              (str_or (SpeechJson.feedback result) "No feedback generated."))
        | ApiError | Malformed => Rejected (* catch: throw error *)
        end
    end.

Definition generateFinalRanking (API_KEY : option string)
    (reply : Reply RankingResult.t) (speakers : list Speaker.t)
    (motion : string) (motionContext : option MotionContext.t)
    : Outcome RankingResult.t :=
  if negb (has_api_key API_KEY) then Rejected
  else
    match reply with
    | Parsed result => Resolved result
    | ApiError | Malformed => Rejected (* catch: throw error *)
    end.

End GeminiService.

(** ** components/SpeakerRecorder.tsx *)

Module SpeakerRecorder.

Inductive Effect : Type :=
| OnUpdateSpeaker (id : string) (updates : PartialSpeaker.t)
| Alert (message : string).

Definition upd_speechTimeLeft (n : Z) : PartialSpeaker.t :=
  PartialSpeaker.mk None None None None None None None None None (Some n) None.

Definition upd_isSpeechTimerRunning (b : bool) : PartialSpeaker.t :=
  PartialSpeaker.mk None None None None None None None None None None (Some b).

Definition upd_reset : PartialSpeaker.t :=
  PartialSpeaker.mk None None None None None None None None None
    (Some SPEECH_TIME_SECONDS) (Some false).

Definition upd_completed (result : AnalysisResult.t) (blob : Blob)
    : PartialSpeaker.t :=
  PartialSpeaker.mk None None None None
    (Some true)
    (Some (Some blob))
    (Some (Some (AnalysisResult.transcription result)))
    (Some (Some (AnalysisResult.score result)))
    (Some (Some (AnalysisResult.feedback result)))
    None None.

(** The speech-timer effect: while the flag is set and time is left, an
    interval is armed whose callback, one second later, writes the time of
    this render less one.  [None]: the interval is cleared. *)
Definition speechTimerEffect (speaker : Speaker.t) : option Effect :=
  if Speaker.isSpeechTimerRunning speaker && (Speaker.speechTimeLeft speaker >? 0)%Z
  then Some (OnUpdateSpeaker (Speaker.id speaker)
               (upd_speechTimeLeft (Speaker.speechTimeLeft speaker - 1)))
  else None.

Definition toggleSpeechTimer (speaker : Speaker.t) : Effect :=
  OnUpdateSpeaker (Speaker.id speaker)
    (upd_isSpeechTimerRunning (negb (Speaker.isSpeechTimerRunning speaker))).

Definition resetSpeechTimer (speaker : Speaker.t) : Effect :=
  OnUpdateSpeaker (Speaker.id speaker) upd_reset.

(** [analysis] is the awaited outcome of [analyzeSpeakerAudio]. *)
Definition processAudio (analysis : Outcome AnalysisResult.t)
    (speaker : Speaker.t) (blob : Blob) : Effect :=
  match analysis with
  | Resolved result =>
      OnUpdateSpeaker (Speaker.id speaker) (upd_completed result blob)
  | Rejected => Alert "Failed to analyze audio. Please try again."
  end.

End SpeakerRecorder.

(** ** components/DebateDashboard.tsx *)

Module DebateDashboard.

Import DebateSession.

Inductive Effect : Type :=
| OnUpdate (updatedSession : DebateSession.t)
| Alert (message : string).

(** Object spreads [{ ...session, field: value }], one setter per field the
    dashboard overrides. *)
Definition with_prepTimeLeft (n : Z) (s : DebateSession.t) : DebateSession.t :=
  mk (id s) (title s) (createdAt s) (topic s) (motionContext s) (isPrepTime s)
     n (speakers s) (isAdjudicating s) (finalRankings s)
     (overallAdjudication s) (phase s).

Definition with_phase (p : Phase) (s : DebateSession.t) : DebateSession.t :=
  mk (id s) (title s) (createdAt s) (topic s) (motionContext s) (isPrepTime s)
     (prepTimeLeft s) (speakers s) (isAdjudicating s) (finalRankings s)
     (overallAdjudication s) p.

Definition with_isAdjudicating (b : bool) (s : DebateSession.t) : DebateSession.t :=
  mk (id s) (title s) (createdAt s) (topic s) (motionContext s) (isPrepTime s)
     (prepTimeLeft s) (speakers s) b (finalRankings s)
     (overallAdjudication s) (phase s).

Definition with_speakers (l : list Speaker.t) (s : DebateSession.t) : DebateSession.t :=
  mk (id s) (title s) (createdAt s) (topic s) (motionContext s) (isPrepTime s)
     (prepTimeLeft s) l (isAdjudicating s) (finalRankings s)
     (overallAdjudication s) (phase s).

Definition with_motion (topic' title' : string) (context : MotionContext.t)
    (s : DebateSession.t) : DebateSession.t :=
  mk (id s) title' (createdAt s) topic' (Some context) (isPrepTime s)
     (prepTimeLeft s) (speakers s) (isAdjudicating s) (finalRankings s)
     (overallAdjudication s) (phase s).

Definition with_results (rankings : list TeamResult.t)
    (adjudication : option string) (s : DebateSession.t) : DebateSession.t :=
  mk (id s) (title s) (createdAt s) (topic s) (motionContext s) (isPrepTime s)
     (prepTimeLeft s) (speakers s) (isAdjudicating s) (Some rankings)
     adjudication (phase s).

(** The session the store holds after a handler ran: [App.updateSession]
    replaces the session of the same id by each [onUpdate] argument in turn,
    and every argument is a spread of the handler's own session. *)
Fixpoint stored (session : DebateSession.t) (effects : list Effect)
    : DebateSession.t :=
  match effects with
  | [] => session
  | OnUpdate updated :: rest => stored updated rest
  | Alert _ :: rest => stored session rest
  end.

(** The prep-timer effect: in phase ['prep'] with time left, an interval is
    armed whose callback writes the time of this render less one. *)
Definition prepTimerEffect (session : DebateSession.t) : option Effect :=
  match phase session with
  | prep =>
      if (prepTimeLeft session >? 0)%Z
      then Some (OnUpdate (with_prepTimeLeft (prepTimeLeft session - 1) session))
      else None
  | _ => None
  end.

(** [motionInput.length > 30 ? motionInput.substring(0, 30) + '...' : motionInput] *)
Definition title_of (motionInput : string) : string :=
  if (30 <? String.length motionInput)%nat
  then String.substring 0 30 motionInput ++ "..."
  else motionInput.

(** [analysis] is the awaited outcome of [analyzeMotionContext(motionInput)]. *)
Definition handleAnalyzeAndStart (motionInput : string) (isOnline : bool)
    (skipPrepTime : bool) (analysis : Outcome MotionContext.t)
    (session : DebateSession.t) : list Effect :=
  if trim_is_empty motionInput then []
  else if negb isOnline
  then [Alert "Please connect to the internet to generate debate criteria."]
  else
    match analysis with
    | Resolved context =>
        let nextPhase := if skipPrepTime then debate else prep in
        [OnUpdate
           (with_prepTimeLeft (if skipPrepTime then 0 else PREP_TIME_SECONDS)
              (with_phase nextPhase
                 (with_motion motionInput (title_of motionInput) context
                    session)))]
    | Rejected => [Alert "Error generating criteria. Please try again."]
    end.

Definition handleSkipPrep (session : DebateSession.t) : list Effect :=
  [OnUpdate (with_prepTimeLeft 0 (with_phase debate session))].

(** [{ ...s, ...updates }] *)
Definition merge (s : Speaker.t) (updates : PartialSpeaker.t) : Speaker.t :=
  let pick {A} (u : option A) (old : A) : A :=
    match u with Some v => v | None => old end in
  Speaker.mk
    (pick (PartialSpeaker.id updates) (Speaker.id s))
    (pick (PartialSpeaker.role updates) (Speaker.role s))
    (pick (PartialSpeaker.team updates) (Speaker.team s))
    (pick (PartialSpeaker.name updates) (Speaker.name s))
    (pick (PartialSpeaker.isCompleted updates) (Speaker.isCompleted s))
    (pick (PartialSpeaker.audioBlob updates) (Speaker.audioBlob s))
    (pick (PartialSpeaker.transcription updates) (Speaker.transcription s))
    (pick (PartialSpeaker.score updates) (Speaker.score s))
    (pick (PartialSpeaker.feedback updates) (Speaker.feedback s))
    (pick (PartialSpeaker.speechTimeLeft updates) (Speaker.speechTimeLeft s))
    (pick (PartialSpeaker.isSpeechTimerRunning updates)
       (Speaker.isSpeechTimerRunning s)).

(** [session.speakers.map(s => s.id === id ? { ...s, ...updates } : s)] *)
Definition newSpeakers (speakers : list Speaker.t) (id : string)
    (updates : PartialSpeaker.t) : list Speaker.t :=
  map (fun s => if String.eqb (Speaker.id s) id then merge s updates else s)
      speakers.

Definition handleUpdateSpeaker (id : string) (updates : PartialSpeaker.t)
    (session : DebateSession.t) : list Effect :=
  [OnUpdate (with_speakers (newSpeakers (speakers session) id updates) session)].

(** [teamSpeakers.reduce((acc, s) => acc + (s.score || 0), 0)] over the
    speakers with [s.team === teamRank.team]. *)
Definition teamTotalScore (speakers : list Speaker.t) (team : string) : Z :=
  let teamSpeakers :=
    filter (fun s => String.eqb (Team_value (Speaker.team s)) team) speakers in
  fold_left (fun acc s => acc + num_or_zero (Speaker.score s)) teamSpeakers 0.

(** The rankings of [handleFinishDebate]: each entry of [result.rankings]
    becomes a [TeamResult] with [totalScore: 0], then the [forEach] writes
    every entry's total. *)
Definition finalRankingsOf (speakers : list Speaker.t)
    (rankings : list Ranking.t) : list TeamResult.t :=
  let finalRankings :=
    map (fun r => TeamResult.mk (Ranking.team r) (Ranking.rank r) 0
                    (Ranking.reasoning r)) rankings in
  map (fun teamRank =>
         TeamResult.mk (TeamResult.team teamRank) (TeamResult.rank teamRank)
           (teamTotalScore speakers (TeamResult.team teamRank))
           (TeamResult.reasoning teamRank))
      finalRankings.

(** [confirmAnswer] is what the user answers to [confirm(...)], asked only
    when fewer than 8 speakers are completed; [ranking] is the awaited
    outcome of [generateFinalRanking].  Reading [result.rankings.map] of a
    result without [rankings] throws inside the [try], which lands in the
    same [catch]. *)
Definition handleFinishDebate (confirmAnswer : bool)
    (ranking : Outcome RankingResult.t) (session : DebateSession.t)
    : list Effect :=
  let completedCount :=
    Z.of_nat (List.length (filter Speaker.isCompleted (speakers session))) in
  if (completedCount <? 8)%Z && negb confirmAnswer then []
  else
    let reverted :=
      [OnUpdate (with_phase debate (with_isAdjudicating false session));
       Alert "Adjudication failed. Please check your connection and try again."] in
    OnUpdate (with_phase results (with_isAdjudicating true session)) ::
    match ranking with
    | Resolved result =>
        match RankingResult.rankings result with
        | Some rankings =>
            [OnUpdate
               (with_results (finalRankingsOf (speakers session) rankings)
                  (RankingResult.overallAdjudication result)
                  (with_isAdjudicating false (with_phase results session)))]
        | None => reverted
        end
    | Rejected => reverted
    end.

End DebateDashboard.

(** ** App.tsx *)

Module App.

Inductive SortOrder : Type := date | name.

Record State : Type := mkState {
  sessions : list DebateSession.t;
  activeSessionId : string;
  sortOrder : SortOrder
}.

(** How a handler ends: normally, or by throwing. *)
Inductive Completion : Type := Normal | Throws.

(** A number inside a template literal. *)
Definition show (n : Z) : string := NilZero.string_of_int (Z.to_int n).

(** The session literal shared by the initial state and [createNewSession];
    [JSON.parse(JSON.stringify(INITIAL_SPEAKERS))] is a copy of the roster. *)
Definition freshSession (id title : string) (now : Z) : DebateSession.t :=
  DebateSession.mk id title now "" None true PREP_TIME_SECONDS
    INITIAL_SPEAKERS false None None setup.

(** [now] is the value of [Date.now()]. *)
Definition initialState (now : Z) : State :=
  mkState [freshSession "default-1" "New Debate 1" now] "default-1" date.

(** [Date.now()] is read twice: [idClock] is the value that names the
    session, [createdClock] the one kept in [createdAt].  Nothing looks
    whether the id is in use. *)
Definition createNewSession (idClock createdClock : Z) (st : State) : State :=
  let newId := "session-" ++ show idClock in
  let newSession :=
    freshSession newId
      ("New Debate " ++ show (Z.of_nat (List.length (sessions st)) + 1))
      createdClock in
  mkState (sessions st ++ [newSession]) newId (sortOrder st).

Definition updateSession (updated : DebateSession.t) (st : State) : State :=
  mkState
    (map (fun s =>
            if String.eqb (DebateSession.id s) (DebateSession.id updated)
            then updated else s)
         (sessions st))
    (activeSessionId st) (sortOrder st).

(** [newSessions[0].id] throws when nothing remains; [setSessions] has then
    already been called. *)
Definition deleteSession (id : string) (st : State) : State * Completion :=
  if Nat.eqb (List.length (sessions st)) 1 then (st, Normal)
  else
    let newSessions :=
      filter (fun s => negb (String.eqb (DebateSession.id s) id)) (sessions st) in
    if String.eqb (activeSessionId st) id then
      match newSessions with
      | first :: _ =>
          (mkState newSessions (DebateSession.id first) (sortOrder st), Normal)
      | [] => (mkState newSessions (activeSessionId st) (sortOrder st), Throws)
      end
    else (mkState newSessions (activeSessionId st) (sortOrder st), Normal).

(** The sidebar: [onClick={() => setActiveSessionId(session.id)}] on the
    entry of [session]. *)
Definition selectSession (session : DebateSession.t) (st : State) : State :=
  mkState (sessions st) (DebateSession.id session) (sortOrder st).

(** The sort button: [setSortOrder(prev => prev === 'date' ? 'name' : 'date')]. *)
Definition toggleSortOrder (st : State) : State :=
  mkState (sessions st) (activeSessionId st)
    (match sortOrder st with date => name | name => date end).

End App.

(** ** The life of a session

    Which handler can run is read off [DebateDashboard]'s render: the setup
    view offers [handleAnalyzeAndStart], the prep view [handleSkipPrep], the
    debate view one [SpeakerRecorder] per speaker (wired to
    [handleUpdateSpeaker]) and [handleFinishDebate]; the results view offers
    no handler of the session.  The prep timer guards itself by the phase.
    A step [step s s'] runs one handler of the render of [s] to its end:
    [s] is the session the handler spreads, [s'] the last session it hands
    to [onUpdate]; the answers of the collaborators are arbitrary.  A
    handler that awaits a collaborator writes when the answer is there, and
    the store may by then hold another session than [s]: module [Store]
    has the writes as they land. *)

Module Lifecycle.

Import DebateSession DebateDashboard.

(** The calls a [SpeakerRecorder] rendered with [speaker] makes to
    [onUpdateSpeaker]. *)
Inductive recorderCall (speaker : Speaker.t)
    : string -> PartialSpeaker.t -> Prop :=
| call_tick id updates :
    SpeakerRecorder.speechTimerEffect speaker
      = Some (SpeakerRecorder.OnUpdateSpeaker id updates) ->
    recorderCall speaker id updates
| call_toggle id updates :
    SpeakerRecorder.toggleSpeechTimer speaker
      = SpeakerRecorder.OnUpdateSpeaker id updates ->
    recorderCall speaker id updates
| call_reset id updates :
    SpeakerRecorder.resetSpeechTimer speaker
      = SpeakerRecorder.OnUpdateSpeaker id updates ->
    recorderCall speaker id updates
| call_process analysis blob id updates :
    SpeakerRecorder.processAudio analysis speaker blob
      = SpeakerRecorder.OnUpdateSpeaker id updates ->
    recorderCall speaker id updates.

Inductive step (s : DebateSession.t) : DebateSession.t -> Prop :=
| step_prep_tick e :
    prepTimerEffect s = Some e ->
    step s (stored s [e])
| step_analyze motionInput isOnline skipPrepTime analysis :
    phase s = setup ->
    step s (stored s (handleAnalyzeAndStart motionInput isOnline skipPrepTime
                        analysis s))
| step_skip :
    phase s = prep ->
    step s (stored s (handleSkipPrep s))
| step_recorder speaker id updates :
    phase s = debate ->
    In speaker (speakers s) ->
    recorderCall speaker id updates ->
    step s (stored s (handleUpdateSpeaker id updates s))
| step_finish confirmAnswer ranking :
    phase s = debate ->
    step s (stored s (handleFinishDebate confirmAnswer ranking s)).

Inductive reachable : DebateSession.t -> Prop :=
| reachable_fresh id title now :
    reachable (App.freshSession id title now)
| reachable_step s s' :
    reachable s -> step s s' -> reachable s'.

(** One second passes for the prep timer: the armed callback, if any,
    fires. *)
Definition prepTick (s : DebateSession.t) : DebateSession.t :=
  match prepTimerEffect s with
  | Some e => stored s [e]
  | None => s
  end.

(** One second passes for the speech timer of the speaker [id]. *)
Definition speechTick (id : string) (s : DebateSession.t) : DebateSession.t :=
  match find (fun sp => String.eqb (Speaker.id sp) id) (speakers s) with
  | Some sp =>
      match SpeakerRecorder.speechTimerEffect sp with
      | Some (SpeakerRecorder.OnUpdateSpeaker id' updates) =>
          stored s (handleUpdateSpeaker id' updates s)
      | _ => s
      end
  | None => s
  end.

(** What never changes about a speaker. *)
Definition identity (sp : Speaker.t) : string * SpeakerRole * Team :=
  (Speaker.id sp, Speaker.role sp, Speaker.team sp).

Definition timeInRange (sp : Speaker.t) : Prop :=
  0 <= Speaker.speechTimeLeft sp <= SPEECH_TIME_SECONDS.

Definition scoredIffCompleted (sp : Speaker.t) : Prop :=
  Speaker.isCompleted sp = false <-> Speaker.score sp = None.

Record invariant (s : DebateSession.t) : Prop := {
  inv_roster : map identity (speakers s) = map identity INITIAL_SPEAKERS;
  inv_speech : Forall timeInRange (speakers s);
  inv_scored : Forall scoredIffCompleted (speakers s);
  inv_prep : 0 <= prepTimeLeft s <= PREP_TIME_SECONDS;
  inv_adjudicating : isAdjudicating s = false;
  inv_rankings :
    phase s <> results ->
    finalRankings s = None /\ overallAdjudication s = None;
  inv_context : phase s = setup -> motionContext s = None
}.

(** An update that carries none of the keys [id], [role], [team]. *)
Definition keepsIdentity (u : PartialSpeaker.t) : Prop :=
  PartialSpeaker.id u = None /\ PartialSpeaker.role u = None
  /\ PartialSpeaker.team u = None.

(** The shapes of the updates a recorder sends. *)
Inductive recorderUpdate (speaker : Speaker.t) : PartialSpeaker.t -> Prop :=
| update_tick :
    Speaker.isSpeechTimerRunning speaker = true ->
    0 < Speaker.speechTimeLeft speaker ->
    recorderUpdate speaker
      (SpeakerRecorder.upd_speechTimeLeft (Speaker.speechTimeLeft speaker - 1))
| update_toggle :
    recorderUpdate speaker
      (SpeakerRecorder.upd_isSpeechTimerRunning
         (negb (Speaker.isSpeechTimerRunning speaker)))
| update_reset :
    recorderUpdate speaker SpeakerRecorder.upd_reset
| update_completed result blob :
    recorderUpdate speaker (SpeakerRecorder.upd_completed result blob).

(** The [catch] of [handleFinishDebate] runs when the awaited ranking call
    rejects, or when its result has no [rankings] to map over. *)
Definition rankingFailed (ranking : Outcome RankingResult.t) : bool :=
  match ranking with
  | Rejected => true
  | Resolved result =>
      match RankingResult.rankings result with
      | Some _ => false
      | None => true
      end
  end.

Definition alerts (effects : list Effect) : bool :=
  existsb (fun e => match e with Alert _ => true | OnUpdate _ => false end)
          effects.

End Lifecycle.

(** ** The session collection

    A step of the collection is one of [App]'s handlers, with any reading
    of the clock: [createNewSession] names the session after the
    millisecond clock and does not look whether the name is in use, so two
    creations within one reading of the clock give two sessions of one
    id. *)

Module Collection.

Import App.

Definition ids (st : State) : list string :=
  map DebateSession.id (sessions st).

(** [sessions.filter(s => s.id !== id)] *)
Definition without (id : string) (l : list DebateSession.t)
    : list DebateSession.t :=
  filter (fun s => negb (String.eqb (DebateSession.id s) id)) l.

Inductive step (st : State) : State -> Prop :=
| step_create idClock createdClock :
    step st (createNewSession idClock createdClock st)
| step_update updated :
    step st (updateSession updated st)
| step_delete id :
    step st (fst (deleteSession id st))
| step_select s :
    In s (sessions st) ->
    step st (selectSession s st)
| step_sort :
    step st (toggleSortOrder st).

Inductive reachable : State -> Prop :=
| reachable_initial now : reachable (initialState now)
| reachable_step st st' : reachable st -> step st st' -> reachable st'.

(** What [App] relies on: there is a session, no two sessions share an id,
    and the active id is the id of a session. *)
Record invariant (st : State) : Prop := {
  inv_nonempty : sessions st <> [];
  inv_unique : NoDup (ids st);
  inv_active : In (activeSessionId st) (ids st)
}.

End Collection.

(** ** The words of the specification

    Definitions that follow the specification, to compare the code with. *)

Module Spec.

Definition knownTeams : list string := map Team_value [OG; OO; CG; CO].

(** Section 4.4: the rank list covers all 4 teams exactly once, with ranks
    forming a permutation of 1, 2, 3, 4. *)
Definition validRankList (l : list Ranking.t) : bool :=
  Nat.eqb (List.length l) 4
  && forallb (fun t => Nat.eqb (List.length
                (filter (fun r => String.eqb (Ranking.team r) t) l)) 1)
             knownTeams
  && forallb (fun k => Nat.eqb (List.length
                (filter (fun r => Z.eqb (Ranking.rank r) k) l)) 1)
             [1; 2; 3; 4].

(** Section 4.4: a completed speaker contributes the score, an incomplete
    one exactly 0. *)
Definition contribution (sp : Speaker.t) : Z :=
  if Speaker.isCompleted sp
  then match Speaker.score sp with Some z => z | None => 0 end
  else 0.

(** Section 4.4: the sum of the contributions of the team's speakers. *)
Definition teamTotal (speakers : list Speaker.t) (t : Team) : Z :=
  fold_right Z.add 0
    (map contribution
       (filter (fun sp => match Speaker.team sp, t with
                          | OG, OG | OO, OO | CG, CG | CO, CO => true
                          | _, _ => false
                          end) speakers)).

End Spec.

(** ** Example sessions *)

Module Examples.

Import DebateSession DebateDashboard.

Definition context : MotionContext.t :=
  MotionContext.mk "English" ["Animal welfare"; "Conservation funding"]
    "Zoos and their critics.".

Definition motion : string := "This House would ban zoos".

Definition fresh : DebateSession.t :=
  App.freshSession "default-1" "New Debate 1" 0.

(** After [handleAnalyzeAndStart], without and with the skip box ticked. *)
Definition inPrep : DebateSession.t :=
  stored fresh (handleAnalyzeAndStart motion true false (Resolved context) fresh).

Definition inDebate : DebateSession.t :=
  stored fresh (handleAnalyzeAndStart motion true true (Resolved context) fresh).

(** The speech of speaker [id] is evaluated with [score]. *)
Definition complete (s : DebateSession.t) (idScore : string * Z)
    : DebateSession.t :=
  stored s
    (handleUpdateSpeaker (fst idScore)
       (SpeakerRecorder.upd_completed
          (AnalysisResult.mk "transcript" (snd idScore) "feedback") "audio")
       s).

(** All eight speakers evaluated, in roster order. *)
Definition allScored : DebateSession.t :=
  fold_left complete
    [("1", 18); ("2", 15); ("3", 17); ("4", 14);
     ("5", 16); ("6", 13); ("7", 19); ("8", 12)]
    inDebate.

(** Only the Member of Government has spoken: the Government Whip, of the
    same team, is absent. *)
Definition oneAbsent : DebateSession.t := complete inDebate ("5", 16).



(** The Prime Minister's timer is started and left to run: one second
    before the end, and at the end. *)
Definition speechStarted : DebateSession.t :=
  stored inDebate
    (handleUpdateSpeaker "1" (SpeakerRecorder.upd_isSpeechTimerRunning true)
       inDebate).

Definition speechLastSecond : DebateSession.t :=
  Nat.iter 439 (Lifecycle.speechTick "1") speechStarted.

Definition speechOver : DebateSession.t :=
  Lifecycle.speechTick "1" speechLastSecond.

(** A start with another motion, from the setup view. *)
Definition otherStart : DebateSession.t :=
  stored fresh
    (handleAnalyzeAndStart "This House would abolish homework" true false
       (Resolved context) fresh).

Definition rankList : list Ranking.t :=
  [ Ranking.mk "Opening Government" 1 "Set the terms of the debate.";
    Ranking.mk "Closing Government" 2 "Extended the case.";
    Ranking.mk "Opening Opposition" 3 "Engaged late.";
    Ranking.mk "Closing Opposition" 4 "Added little." ].

(** Closing Opposition is missing and rank 1 is given twice. *)
Definition badRankList : list Ranking.t :=
  [ Ranking.mk "Opening Government" 1 "Set the terms of the debate.";
    Ranking.mk "Opening Opposition" 1 "Matched them.";
    Ranking.mk "Closing Government" 2 "Extended the case." ].

End Examples.

(** ** What the views compute *)

Module View.

(** [Array.prototype.sort(compare)]: a stable sort in which a negative
    [compare a b] puts [a] first.  It is embedded as insertion from the
    right; for a comparator that is a difference of keys, as the three of
    the source are, every stable sort yields this very list. *)
Fixpoint insertSorted {A : Type} (compare : A -> A -> Z) (x : A)
    (l : list A) : list A :=
  match l with
  | [] => [x]
  | y :: rest =>
      if (compare x y <=? 0)%Z then x :: l
      else y :: insertSorted compare x rest
  end.

Definition sort {A : Type} (compare : A -> A -> Z) (l : list A) : list A :=
  fold_right (insertSorted compare) [] l.

(** [App]: [[...sessions].sort(...)], newest first or by title.
    [localeCompare] depends on the locale of the browser: a parameter. *)
Definition sortedSessions (localeCompare : string -> string -> Z)
    (st : App.State) : list DebateSession.t :=
  sort (fun a b =>
          match App.sortOrder st with
          | App.date => DebateSession.createdAt b - DebateSession.createdAt a
          | App.name =>
              localeCompare (DebateSession.title a) (DebateSession.title b)
          end)
       (App.sessions st).

(** [App]: [sessions.find(s => s.id === activeSessionId)] *)
Definition activeSession (st : App.State) : option DebateSession.t :=
  find (fun s => String.eqb (DebateSession.id s) (App.activeSessionId st))
       (App.sessions st).

(** [String.prototype.padStart(targetLength, pad)] for a pad of one code
    unit. *)
Definition padStart (targetLength : nat) (pad : ascii) (s : string) : string :=
  string_of_list_ascii (repeat pad (targetLength - String.length s)) ++ s.

(** [formatTime], the same in [SpeakerRecorder] and [DebateDashboard]:
    [Math.floor(seconds / 60)] and [seconds % 60], the latter with the sign
    of [seconds]. *)
Definition formatTime (seconds : Z) : string :=
  App.show (seconds / 60) ++ ":" ++ padStart 2 "0" (App.show (Z.rem seconds 60)).

(** The results view: [[...session.speakers].sort((a, b) =>
    (b.score || 0) - (a.score || 0))]. *)
Definition sortedSpeakers (session : DebateSession.t) : list Speaker.t :=
  sort (fun a b => num_or_zero (Speaker.score b) - num_or_zero (Speaker.score a))
       (DebateSession.speakers session).

(** The results view: [session.finalRankings.sort((a, b) => a.rank - b.rank)]. *)
Definition rankingsShown (finalRankings : list TeamResult.t)
    : list TeamResult.t :=
  sort (fun a b => TeamResult.rank a - TeamResult.rank b) finalRankings.

End View.

(** ** How the components are wired *)

Module Wiring.

Import DebateSession DebateDashboard.

(** [<DebateDashboard onUpdate={updateSession} />]: the effects of a handler
    of the dashboard, run on the collection. *)
Fixpoint run (effects : list Effect) (st : App.State) : App.State :=
  match effects with
  | [] => st
  | OnUpdate updated :: rest => run rest (App.updateSession updated st)
  | Alert _ :: rest => run rest st
  end.

(** [<SpeakerRecorder onUpdateSpeaker={handleUpdateSpeaker} />]: an effect
    of a recorder, as effects of the dashboard that renders it. *)
Definition recorderEffect (e : SpeakerRecorder.Effect)
    (session : DebateSession.t) : list Effect :=
  match e with
  | SpeakerRecorder.OnUpdateSpeaker id updates =>
      handleUpdateSpeaker id updates session
  | SpeakerRecorder.Alert message => [Alert message]
  end.

(** [processAudio] with its call
    [analyzeSpeakerAudio(blob, speaker.role, motion, motionContext)], in the
    dashboard of [session]. *)
Definition evaluateSpeech (API_KEY : option string)
    (base64Audio : Outcome string) (reply : GeminiService.Reply SpeechJson.t)
    (speaker : Speaker.t) (blob : Blob) (session : DebateSession.t)
    : list Effect :=
  recorderEffect
    (SpeakerRecorder.processAudio
       (GeminiService.analyzeSpeakerAudio API_KEY base64Audio reply blob
          (Speaker.role speaker) (topic session) (motionContext session))
       speaker blob)
    session.

(** [handleAnalyzeAndStart] with its call [analyzeMotionContext(motionInput)]. *)
Definition analyzeAndStart (API_KEY : option string)
    (reply : GeminiService.Reply MotionJson.t) (motionInput : string)
    (isOnline skipPrepTime : bool) (session : DebateSession.t) : list Effect :=
  handleAnalyzeAndStart motionInput isOnline skipPrepTime
    (GeminiService.analyzeMotionContext API_KEY reply motionInput) session.

(** [handleFinishDebate] with its call
    [generateFinalRanking(session.speakers, session.topic, session.motionContext)]. *)
Definition finishDebate (API_KEY : option string)
    (reply : GeminiService.Reply RankingResult.t) (confirmAnswer : bool)
    (session : DebateSession.t) : list Effect :=
  handleFinishDebate confirmAnswer
    (GeminiService.generateFinalRanking API_KEY reply (speakers session)
       (topic session) (motionContext session))
    session.

(** The effects a dashboard rendered with [session] can perform: those of
    its prep timer, of its handlers and of its recorders. *)
Inductive fromDashboard (session : DebateSession.t) : list Effect -> Prop :=
| from_prep_timer e :
    prepTimerEffect session = Some e -> fromDashboard session [e]
| from_analyze motionInput isOnline skipPrepTime analysis :
    fromDashboard session
      (handleAnalyzeAndStart motionInput isOnline skipPrepTime analysis session)
| from_skip : fromDashboard session (handleSkipPrep session)
| from_update id updates :
    fromDashboard session (handleUpdateSpeaker id updates session)
| from_finish confirmAnswer ranking :
    fromDashboard session (handleFinishDebate confirmAnswer ranking session).

(** The order of the phases in ['setup' | 'prep' | 'debate' | 'results']. *)
Definition phaseOrder (p : Phase) : Z :=
  match p with
  | setup => 0
  | prep => 1
  | debate => 2
  | results => 3
  end.

(** A completed speaker carries the four results of the evaluation, an
    incomplete one none of them. *)
Definition evaluated (sp : Speaker.t) : Prop :=
  if Speaker.isCompleted sp
  then Speaker.score sp <> None /\ Speaker.transcription sp <> None
       /\ Speaker.feedback sp <> None /\ Speaker.audioBlob sp <> None
  else Speaker.score sp = None /\ Speaker.transcription sp = None
       /\ Speaker.feedback sp = None /\ Speaker.audioBlob sp = None.

(** Past ['setup'] a session has its motion: a context, a topic that is not
    blank and the title made from the topic. *)
Definition hasMotion (s : DebateSession.t) : Prop :=
  exists context,
    motionContext s = Some context
    /\ trim_is_empty (topic s) = false
    /\ title s = title_of (topic s).

(** [session.speakers.filter(s => s.isCompleted).length] *)
Definition completedCount (s : DebateSession.t) : Z :=
  Z.of_nat (List.length (filter Speaker.isCompleted (speakers s))).

End Wiring.

(** ** What the store holds

    [handleAnalyzeAndStart], [handleFinishDebate] and [processAudio] await
    a collaborator and call [onUpdate] when the answer is there.  What they
    hand over is a spread of the [session] of the render whose closure they
    are; for [processAudio] that is the render in which Record was clicked
    ([mediaRecorder.onstop = handleRecordingStop]).  [updateSession] puts
    the argument in the place of the session of that id, whatever the store
    holds by then.  So a write is described against its render, and the
    store goes from write to write, each from a render of a session it held
    at some time before. *)

Module Store.

Import DebateSession DebateDashboard.

(** The effects the dashboard rendered with [session] can perform: the prep
    timer, and what the view of the phase offers. *)
Inductive rendered (session : DebateSession.t) : list Effect -> Prop :=
| rendered_prep_timer e :
    prepTimerEffect session = Some e ->
    rendered session [e]
| rendered_analyze motionInput isOnline skipPrepTime analysis :
    phase session = setup ->
    rendered session
      (handleAnalyzeAndStart motionInput isOnline skipPrepTime analysis session)
| rendered_skip :
    phase session = prep ->
    rendered session (handleSkipPrep session)
| rendered_recorder speaker id updates :
    phase session = debate ->
    In speaker (speakers session) ->
    Lifecycle.recorderCall speaker id updates ->
    rendered session (handleUpdateSpeaker id updates session)
| rendered_finish confirmAnswer ranking :
    phase session = debate ->
    rendered session (handleFinishDebate confirmAnswer ranking session).

(** [writes r u]: [u] is the argument of an [onUpdate] of the render of
    [r]. *)
Definition writes (r u : DebateSession.t) : Prop :=
  exists effects, rendered r effects /\ In (OnUpdate u) effects.

(** The sessions the store holds under one id, the latest first, from the
    fresh session on: each is written from the render of one that was
    there before it, not always the latest. *)
Inductive history : list DebateSession.t -> Prop :=
| history_fresh id title now :
    history [App.freshSession id title now]
| history_write h r u :
    history h -> In r h -> writes r u -> history (u :: h).

(** What [handleFinishDebate] stores while the ranking is awaited. *)
Definition adjudicating (r : DebateSession.t) : DebateSession.t :=
  with_phase results (with_isAdjudicating true r).

(** The shapes of the sessions the render of [r] writes. *)
Inductive written (r : DebateSession.t) : DebateSession.t -> Prop :=
| written_prep_tick :
    phase r = prep -> 0 < prepTimeLeft r ->
    written r (with_prepTimeLeft (prepTimeLeft r - 1) r)
| written_start motionInput (skipPrepTime : bool) context :
    phase r = setup -> trim_is_empty motionInput = false ->
    written r
      (with_prepTimeLeft (if skipPrepTime then 0 else PREP_TIME_SECONDS)
         (with_phase (if skipPrepTime then debate else prep)
            (with_motion motionInput (title_of motionInput) context r)))
| written_skip :
    phase r = prep ->
    written r (with_prepTimeLeft 0 (with_phase debate r))
| written_speaker speaker updates :
    phase r = debate -> In speaker (speakers r) ->
    Lifecycle.recorderUpdate speaker updates ->
    written r
      (with_speakers (newSpeakers (speakers r) (Speaker.id speaker) updates) r)
| written_adjudicating :
    phase r = debate ->
    written r (adjudicating r)
| written_results rankings adjudication :
    phase r = debate ->
    written r
      (with_results (finalRankingsOf (speakers r) rankings) adjudication
         (with_isAdjudicating false (with_phase results r)))
| written_reverted :
    phase r = debate ->
    written r (with_phase debate (with_isAdjudicating false r)).

End Store.

(** * Properties *)

(** Splits the conjunctions of the goal, and nothing else. *)
Ltac conjuncts := repeat match goal with |- _ /\ _ => split end.

(** Goes through the [onUpdate]s of a list of effects [H : In _ _], closing
    the goal by computation at each. *)
Ltac each_update H :=
  cbn in H;
  repeat (destruct H as [H | H];
          [try discriminate H; injection H as <-; reflexivity |]);
  try contradiction.

(** Linear arithmetic over the two durations. *)
Ltac seconds :=
  unfold Lifecycle.timeInRange, SPEECH_TIME_SECONDS, PREP_TIME_SECONDS in *;
  cbn in *; lia.

(** ** Speaker updates *)

Section SpeakerUpdates.

Import DebateSession DebateDashboard Lifecycle.

Lemma merge_identity (sp : Speaker.t) (u : PartialSpeaker.t) :
  keepsIdentity u -> identity (merge sp u) = identity sp.
Proof.
  intros (Hid & Hrole & Hteam).
  unfold identity, merge; cbn.
  now rewrite Hid, Hrole, Hteam.
Qed.

Lemma newSpeakers_identity (l : list Speaker.t) (id : string)
    (u : PartialSpeaker.t) :
  keepsIdentity u -> map identity (newSpeakers l id u) = map identity l.
Proof.
  intros Hu. unfold newSpeakers. rewrite map_map.
  apply map_ext. intros sp.
  destruct (String.eqb (Speaker.id sp) id); auto using merge_identity.
Qed.

Lemma newSpeakers_length (l : list Speaker.t) (id : string)
    (u : PartialSpeaker.t) :
  List.length (newSpeakers l id u) = List.length l.
Proof. unfold newSpeakers. apply length_map. Qed.

Lemma newSpeakers_Forall (P : Speaker.t -> Prop) (l : list Speaker.t)
    (id : string) (u : PartialSpeaker.t) :
  (forall sp, P sp -> P (merge sp u)) ->
  Forall P l -> Forall P (newSpeakers l id u).
Proof.
  intros Hmerge Hl. unfold newSpeakers.
  apply Forall_map. eapply Forall_impl; [| exact Hl].
  intros sp Hsp. cbn.
  destruct (String.eqb (Speaker.id sp) id); auto.
Qed.

Lemma recorderCall_inv (speaker : Speaker.t) (id : string)
    (u : PartialSpeaker.t) :
  recorderCall speaker id u ->
  id = Speaker.id speaker /\ recorderUpdate speaker u.
Proof.
  intros [id' u' H | id' u' H | id' u' H | analysis blob id' u' H].
  - unfold SpeakerRecorder.speechTimerEffect in H.
    destruct (Speaker.isSpeechTimerRunning speaker) eqn:Hrun; cbn in H;
      [| discriminate].
    destruct (Speaker.speechTimeLeft speaker >? 0) eqn:Hpos; [| discriminate].
    inversion H; subst. split; [reflexivity |].
    apply Z.gtb_lt in Hpos.
    apply update_tick; [assumption | lia].
  - inversion H; subst. split; [reflexivity | apply update_toggle].
  - inversion H; subst. split; [reflexivity | apply update_reset].
  - destruct analysis as [result |]; cbn in H; [| discriminate].
    inversion H; subst. split; [reflexivity | apply update_completed].
Qed.

Lemma recorderUpdate_keepsIdentity (speaker : Speaker.t)
    (u : PartialSpeaker.t) :
  recorderUpdate speaker u -> keepsIdentity u.
Proof. intros []; repeat split. Qed.

End SpeakerUpdates.

(** ** The invariant of a session *)

Section SessionInvariant.

Import DebateSession DebateDashboard Lifecycle.

Lemma prepTimerEffect_inv (s : DebateSession.t) (e : Effect) :
  prepTimerEffect s = Some e ->
  phase s = prep /\ 0 < prepTimeLeft s
  /\ e = OnUpdate (with_prepTimeLeft (prepTimeLeft s - 1) s).
Proof.
  unfold prepTimerEffect.
  destruct (phase s); try discriminate.
  destruct (prepTimeLeft s >? 0) eqn:Hpos; [| discriminate].
  apply Z.gtb_lt in Hpos.
  intros H; inversion H; subst. repeat split; lia.
Qed.

Lemma invariant_fresh (id title : string) (now : Z) :
  invariant (App.freshSession id title now).
Proof.
  constructor; cbn; try easy.
  - repeat apply Forall_cons; try apply Forall_nil;
      seconds.
  - repeat apply Forall_cons; try apply Forall_nil; split; reflexivity.
Qed.

Lemma merge_timeInRange (speaker sp : Speaker.t) (u : PartialSpeaker.t) :
  timeInRange speaker -> recorderUpdate speaker u ->
  timeInRange sp -> timeInRange (merge sp u).
Proof.
  intros Hspeaker Hu Hsp.
  destruct Hu; try assumption; seconds.
Qed.

Lemma merge_scoredIffCompleted (speaker sp : Speaker.t)
    (u : PartialSpeaker.t) :
  recorderUpdate speaker u ->
  scoredIffCompleted sp -> scoredIffCompleted (merge sp u).
Proof.
  unfold scoredIffCompleted. intros Hu Hsp.
  destruct Hu; cbn; try assumption.
  split; discriminate.
Qed.

Lemma invariant_step (s s' : DebateSession.t) :
  invariant s -> step s s' -> invariant s'.
Proof.
  intros [Hroster Hspeech Hscored Hprep Hadj Hrank Hctx] Hstep.
  destruct Hstep as
    [e He | motionInput isOnline skip analysis Hph | Hph
     | speaker id u Hph Hin Hcall | confirmAnswer ranking Hph].
  - (* the prep timer ticks *)
    apply prepTimerEffect_inv in He as (Hph & Hpos & ->).
    constructor; cbn; auto; seconds.
  - (* handleAnalyzeAndStart *)
    unfold handleAnalyzeAndStart.
    destruct (trim_is_empty motionInput); [constructor; auto |].
    destruct isOnline; cbn; [| constructor; auto].
    destruct analysis as [context |]; cbn; [| constructor; auto].
    assert (Hnone : finalRankings s = None /\ overallAdjudication s = None)
      by (apply Hrank; rewrite Hph; discriminate).
    constructor; cbn; auto.
    + destruct skip; seconds.
    + destruct skip; discriminate.
  - (* handleSkipPrep *)
    assert (Hnone : finalRankings s = None /\ overallAdjudication s = None)
      by (apply Hrank; rewrite Hph; discriminate).
    constructor; cbn; auto; try discriminate.
    seconds.
  - (* a recorder calls handleUpdateSpeaker *)
    apply recorderCall_inv in Hcall as (-> & Hu).
    assert (Hrange : timeInRange speaker)
      by (rewrite Forall_forall in Hspeech; auto).
    constructor; cbn; auto.
    + rewrite newSpeakers_identity;
        eauto using recorderUpdate_keepsIdentity.
    + apply newSpeakers_Forall; eauto using merge_timeInRange.
    + apply newSpeakers_Forall; eauto using merge_scoredIffCompleted.
  - (* handleFinishDebate *)
    assert (Hnone : finalRankings s = None /\ overallAdjudication s = None)
      by (apply Hrank; rewrite Hph; discriminate).
    unfold handleFinishDebate.
    destruct (_ && _); [constructor; auto |].
    destruct ranking as [result |]; cbn.
    + destruct (RankingResult.rankings result) as [rankings |]; cbn;
        constructor; cbn; auto; try discriminate; congruence.
    + constructor; cbn; auto; discriminate.
Qed.

Lemma reachable_invariant (s : DebateSession.t) :
  reachable s -> invariant s.
Proof.
  induction 1; eauto using invariant_fresh, invariant_step.
Qed.

End SessionInvariant.

(** ** Sessions that are reached *)

Section Reaching.

Import DebateSession DebateDashboard Lifecycle.

Lemma fresh_reachable : reachable Examples.fresh.
Proof. apply reachable_fresh. Qed.


Lemma inDebate_reachable : reachable Examples.inDebate.
Proof.
  unfold Examples.inDebate.
  eapply reachable_step; [apply fresh_reachable | now apply step_analyze].
Qed.


Lemma speechTick_phase (id : string) (s : DebateSession.t) :
  phase (speechTick id s) = phase s.
Proof.
  unfold speechTick.
  destruct (find _ _) as [sp |]; [| reflexivity].
  destruct (SpeakerRecorder.speechTimerEffect sp) as [[id' u | msg] |];
    reflexivity.
Qed.

Lemma speechTick_reachable (id : string) (s : DebateSession.t) :
  reachable s -> phase s = debate -> reachable (speechTick id s).
Proof.
  intros Hs Hph. unfold speechTick.
  destruct (find _ _) as [sp |] eqn:Hfind; [| exact Hs].
  apply find_some in Hfind as (Hin & _).
  destruct (SpeakerRecorder.speechTimerEffect sp) as [[id' u | msg] |] eqn:He;
    try exact Hs.
  eapply reachable_step; [exact Hs |].
  apply step_recorder with (speaker := sp); auto.
  now apply call_tick.
Qed.


Lemma speechTicks_reachable (id : string) (n : nat) (s : DebateSession.t) :
  reachable s -> phase s = debate ->
  reachable (Nat.iter n (speechTick id) s)
  /\ phase (Nat.iter n (speechTick id) s) = debate.
Proof.
  intros Hs Hph. induction n as [| n (IHr & IHp)]; cbn; [auto |].
  split; [now apply speechTick_reachable | now rewrite speechTick_phase].
Qed.


Lemma speechStarted_reachable : reachable Examples.speechStarted.
Proof.
  eapply reachable_step; [apply inDebate_reachable |].
  apply step_recorder
    with (speaker := nth 0 (speakers Examples.inDebate) (initial_speaker "" PM OG));
    [reflexivity | vm_compute; tauto | now apply call_toggle].
Qed.

Lemma speechLastSecond_reachable :
  reachable Examples.speechLastSecond
  /\ phase Examples.speechLastSecond = debate.
Proof.
  apply speechTicks_reachable; [apply speechStarted_reachable | reflexivity].
Qed.

Lemma speechOver_reachable : reachable Examples.speechOver.
Proof.
  apply speechTick_reachable; apply speechLastSecond_reachable.
Qed.

Lemma complete_reachable (s : DebateSession.t) (idScore : string * Z) :
  reachable s -> phase s = debate ->
  (exists sp, In sp (speakers s) /\ Speaker.id sp = fst idScore) ->
  reachable (Examples.complete s idScore).
Proof.
  intros Hs Hph (sp & Hin & Hid). unfold Examples.complete.
  eapply reachable_step; [exact Hs |].
  apply step_recorder with (speaker := sp); auto.
  apply call_process with (analysis :=
    Resolved (AnalysisResult.mk "transcript" (snd idScore) "feedback"))
    (blob := "audio").
  cbn. now rewrite Hid.
Qed.

Lemma complete_phase (s : DebateSession.t) (idScore : string * Z) :
  phase (Examples.complete s idScore) = phase s.
Proof. reflexivity. Qed.

Lemma complete_ids (s : DebateSession.t) (idScore : string * Z) :
  map Speaker.id (speakers (Examples.complete s idScore))
  = map Speaker.id (speakers s).
Proof.
  cbn. unfold newSpeakers. rewrite map_map. apply map_ext.
  intros sp. now destruct (String.eqb (Speaker.id sp) (fst idScore)).
Qed.

Lemma completes_reachable (l : list (string * Z)) :
  forall s : DebateSession.t,
    reachable s -> phase s = debate ->
    (forall idScore, In idScore l -> In (fst idScore) (map Speaker.id (speakers s))) ->
    reachable (fold_left Examples.complete l s).
Proof.
  induction l as [| idScore l IH]; intros s Hs Hph Hids;
    [exact Hs |].
  change (reachable (fold_left Examples.complete l (Examples.complete s idScore))).
  apply IH.
  - apply complete_reachable; auto.
    specialize (Hids idScore (or_introl eq_refl)).
    apply in_map_iff in Hids as (sp & Hid & Hin). eauto.
  - now rewrite complete_phase.
  - intros idScore' Hin'. rewrite complete_ids. apply Hids. now right.
Qed.

Lemma allScored_reachable : reachable Examples.allScored.
Proof.
  apply completes_reachable; [apply inDebate_reachable | reflexivity |].
  intros idScore Hin. cbn in Hin.
  repeat (destruct Hin as [<- | Hin]; [vm_compute; tauto |]). contradiction.
Qed.

Lemma oneAbsent_reachable : reachable Examples.oneAbsent.
Proof.
  apply complete_reachable; [apply inDebate_reachable | reflexivity |].
  exists (nth 4 (speakers Examples.inDebate) (initial_speaker "" PM OG)).
  split; [vm_compute; tauto | reflexivity].
Qed.

End Reaching.

(** ** Writes and their renders *)

Section Writes.

Import DebateSession DebateDashboard Lifecycle Store.

(** A step is the last write of a handler of the render. *)
Lemma step_rendered (s s' : DebateSession.t) :
  step s s' <-> exists effects, rendered s effects /\ s' = stored s effects.
Proof.
  split.
  - intros [e He | motionInput isOnline skip analysis Hph | Hph
            | speaker id u Hph Hin Hcall | confirmAnswer ranking Hph];
      eexists; (split; [| reflexivity]).
    + now apply rendered_prep_timer.
    + now apply rendered_analyze.
    + now apply rendered_skip.
    + eapply rendered_recorder; eassumption.
    + now apply rendered_finish.
  - intros (effects & Hr & ->).
    destruct Hr as [e He | motionInput isOnline skip analysis Hph | Hph
                    | speaker id u Hph Hin Hcall | confirmAnswer ranking Hph].
    + now apply step_prep_tick.
    + now apply step_analyze.
    + now apply step_skip.
    + eapply step_recorder; eassumption.
    + now apply step_finish.
Qed.

Lemma recorderUpdate_call (speaker : Speaker.t) (u : PartialSpeaker.t) :
  recorderUpdate speaker u -> recorderCall speaker (Speaker.id speaker) u.
Proof.
  intros [Hrun Hpos | | | result blob].
  - apply call_tick. unfold SpeakerRecorder.speechTimerEffect.
    rewrite Hrun. apply Z.gtb_lt in Hpos. now rewrite Hpos.
  - now apply call_toggle.
  - now apply call_reset.
  - now apply call_process with (analysis := Resolved result) (blob := blob).
Qed.

(** The writes of a render are the sessions of the seven shapes. *)
Lemma writes_written (r u : DebateSession.t) :
  writes r u <-> written r u.
Proof.
  unfold writes. split.
  - intros (effects & Hr & Hin).
    destruct Hr as [e He | motionInput isOnline skip analysis Hph | Hph
                    | speaker id upd Hph Hsp Hcall | confirmAnswer ranking Hph].
    + apply prepTimerEffect_inv in He as (Hph & Hpos & ->).
      destruct Hin as [H | []]. injection H as <-. now constructor.
    + unfold handleAnalyzeAndStart in Hin.
      destruct (trim_is_empty motionInput) eqn:Hblank; [destruct Hin |].
      destruct isOnline; cbn in Hin;
        [| destruct Hin as [H | []]; discriminate H].
      destruct analysis as [context |]; cbn in Hin;
        destruct Hin as [H | []]; [| discriminate H].
      injection H as <-. now apply written_start.
    + destruct Hin as [H | []]. injection H as <-. now constructor.
    + apply recorderCall_inv in Hcall as (-> & Hu).
      destruct Hin as [H | []]. injection H as <-. now constructor.
    + unfold handleFinishDebate in Hin.
      destruct (_ && _); [destruct Hin |].
      destruct Hin as [H | Hin]; [injection H as <-; now constructor |].
      destruct ranking as [result |];
        [destruct (RankingResult.rankings result) as [rankings |] |];
        cbn in Hin.
      * destruct Hin as [H | []]. injection H as <-. now constructor.
      * destruct Hin as [H | [H | []]]; [| discriminate H].
        injection H as <-. now constructor.
      * destruct Hin as [H | [H | []]]; [| discriminate H].
        injection H as <-. now constructor.
  - intros [Hph Hpos | motionInput skip context Hph Hblank | Hph
            | speaker upd Hph Hsp Hu | Hph | rankings adjudication Hph | Hph].
    + exists [OnUpdate (with_prepTimeLeft (prepTimeLeft r - 1) r)].
      split; [| now left].
      apply rendered_prep_timer. unfold prepTimerEffect. rewrite Hph.
      apply Z.gtb_lt in Hpos. now rewrite Hpos.
    + exists (handleAnalyzeAndStart motionInput true skip (Resolved context) r).
      split; [now apply rendered_analyze |].
      unfold handleAnalyzeAndStart. rewrite Hblank. now left.
    + exists (handleSkipPrep r). split; [now apply rendered_skip | now left].
    + exists (handleUpdateSpeaker (Speaker.id speaker) upd r).
      split; [| now left].
      eapply rendered_recorder; eauto using recorderUpdate_call.
    + exists (handleFinishDebate true Rejected r).
      split; [now apply rendered_finish |].
      unfold handleFinishDebate. rewrite andb_false_r. now left.
    + exists (handleFinishDebate true
                (Resolved (RankingResult.mk (Some rankings) adjudication)) r).
      split; [now apply rendered_finish |].
      unfold handleFinishDebate. rewrite andb_false_r. right. now left.
    + exists (handleFinishDebate true Rejected r).
      split; [now apply rendered_finish |].
      unfold handleFinishDebate. rewrite andb_false_r. right. now left.
Qed.

(** What a write does to the speakers of its render. *)
Lemma written_speakers (r u : DebateSession.t) :
  written r u ->
  speakers u = speakers r
  \/ exists speaker upd,
       In speaker (speakers r) /\ recorderUpdate speaker upd
       /\ speakers u = newSpeakers (speakers r) (Speaker.id speaker) upd.
Proof.
  intros [Hph Hpos | motionInput skip context Hph Hblank | Hph
          | speaker upd Hph Hsp Hu | Hph | rankings adjudication Hph | Hph];
    try (now left).
  right. eauto.
Qed.

(** Every write of a render is a step of it, but for the session stored
    while the ranking is awaited. *)
Lemma written_step (r u : DebateSession.t) :
  written r u ->
  step r u \/ (phase r = debate /\ u = adjudicating r).
Proof.
  intros Hw.
  destruct Hw as [Hph Hpos | motionInput skip context Hph Hblank | Hph
                  | speaker upd Hph Hsp Hu | Hph | rankings adjudication Hph
                  | Hph]; [left .. | right | left | left].
  - assert (He : prepTimerEffect r
                 = Some (OnUpdate (with_prepTimeLeft (prepTimeLeft r - 1) r))).
    { unfold prepTimerEffect. rewrite Hph.
      apply Z.gtb_lt in Hpos. now rewrite Hpos. }
    exact (step_prep_tick r _ He).
  - pose proof (step_analyze r motionInput true skip (Resolved context) Hph)
      as H.
    unfold handleAnalyzeAndStart in H. now rewrite Hblank in H.
  - now apply (step_skip r).
  - eapply (step_recorder r); eauto using recorderUpdate_call.
  - auto.
  - pose proof (step_finish r true
                  (Resolved (RankingResult.mk (Some rankings) adjudication))
                  Hph) as H.
    unfold handleFinishDebate in H. now rewrite andb_false_r in H.
  - pose proof (step_finish r true Rejected Hph) as H.
    unfold handleFinishDebate in H. now rewrite andb_false_r in H.
Qed.

(** The render of a session in phase ['results'] writes nothing. *)
Lemma written_not_results (r u : DebateSession.t) :
  written r u -> phase r <> results.
Proof. intros []; congruence. Qed.

(** Whatever the order in which the writes land, every session the store
    holds is a reached one, or the one stored while a ranking is awaited
    for a reached one. *)
Lemma history_reached (h : list DebateSession.t) :
  history h ->
  Forall (fun s => reachable s
                   \/ exists r, reachable r /\ phase r = debate
                                /\ s = adjudicating r) h.
Proof.
  induction 1 as [id title now | h r u Hh IH Hin Hw].
  - repeat constructor.
  - constructor; [| assumption].
    rewrite Forall_forall in IH. apply writes_written in Hw.
    destruct (IH r Hin) as [Hr | (r0 & _ & _ & ->)].
    + destruct (written_step r u Hw) as [Hstep | (Hph & ->)].
      * left. eauto using reachable_step.
      * right. eauto.
    + exfalso. now apply (written_not_results _ _ Hw).
Qed.

End Writes.

(** ** The phase state machine *)

Section Phases.

Import DebateSession DebateDashboard Lifecycle.

(** The awaited motion analysis rejects exactly when no API key is set. *)
Lemma analyzeMotionContext_rejects (API_KEY : option string)
    (reply : GeminiService.Reply MotionJson.t) (motion : string) :
  GeminiService.analyzeMotionContext API_KEY reply motion = Rejected
  <-> GeminiService.has_api_key API_KEY = false.
Proof.
  unfold GeminiService.analyzeMotionContext.
  destruct (GeminiService.has_api_key API_KEY); cbn;
    [destruct reply |]; split; congruence.
Qed.

(** With a key, a request that fails and an answer that does not parse both
    resolve, to the fallback context: the caller sees a success. *)
Lemma analyzeMotionContext_fallback (API_KEY : option string)
    (reply : GeminiService.Reply MotionJson.t) (motion : string) :
  GeminiService.has_api_key API_KEY = true ->
  reply = GeminiService.ApiError \/ reply = GeminiService.Malformed ->
  GeminiService.analyzeMotionContext API_KEY reply motion
  = Resolved GeminiService.fallback_context.
Proof.
  intros Hkey Hreply. unfold GeminiService.analyzeMotionContext.
  rewrite Hkey. now destruct Hreply as [-> | ->].
Qed.

(** The awaited ranking rejects when no API key is set, when the request
    fails and when the answer does not parse. *)
Lemma generateFinalRanking_rejects (API_KEY : option string)
    (reply : GeminiService.Reply RankingResult.t) (speakers : list Speaker.t)
    (motion : string) (motionContext : option MotionContext.t) :
  GeminiService.generateFinalRanking API_KEY reply speakers motion motionContext
  = Rejected
  <-> GeminiService.has_api_key API_KEY = false
      \/ reply = GeminiService.ApiError \/ reply = GeminiService.Malformed.
Proof.
  unfold GeminiService.generateFinalRanking.
  destruct (GeminiService.has_api_key API_KEY); cbn; destruct reply;
    split; intros H; auto; try discriminate;
    destruct H as [H | [H | H]]; discriminate.
Qed.

(** C1, as the code has it.  The session leaves ['setup'] only after the
    awaited [analyzeMotionContext] resolved, and with the context it
    resolved to.  The call rejects exactly when no API key is set: for
    every reached session in phase ['setup'], [handleAnalyzeAndStart] then
    only alerts and hands nothing to [onUpdate], so the store is as it was
    and the session is the very same, in phase ['setup'] with
    [motionContext] null.  A request that fails and an answer that does not
    parse are no failure for the dashboard: with a key set, online and with
    a motion that is not blank, the call resolves to the fallback context
    and the session moves on with it. *)
Theorem analyze_failure_keeps_setup (API_KEY : option string)
    (reply : GeminiService.Reply MotionJson.t) (motionInput : string)
    (isOnline skipPrepTime : bool) (s : DebateSession.t) :
  reachable s -> phase s = setup ->
  let analysis :=
    GeminiService.analyzeMotionContext API_KEY reply motionInput in
  let effects :=
    handleAnalyzeAndStart motionInput isOnline skipPrepTime analysis s in
  let s' := stored s effects in
  (analysis = Rejected <-> GeminiService.has_api_key API_KEY = false)
  /\ (analysis = Rejected ->
      (forall u, ~ In (OnUpdate u) effects)
      /\ (forall st, Wiring.run effects st = st)
      /\ s' = s /\ phase s' = setup /\ motionContext s' = None)
  /\ (phase s' <> setup ->
      exists context,
        analysis = Resolved context /\ motionContext s' = Some context
        /\ phase s' = (if skipPrepTime then debate else prep))
  /\ (GeminiService.has_api_key API_KEY = true ->
      reply = GeminiService.ApiError \/ reply = GeminiService.Malformed ->
      trim_is_empty motionInput = false -> isOnline = true ->
      analysis = Resolved GeminiService.fallback_context
      /\ phase s' = (if skipPrepTime then debate else prep)
      /\ motionContext s' = Some GeminiService.fallback_context).
Proof.
  intros Hs Hph analysis effects s'.
  pose proof (inv_context s (reachable_invariant s Hs) Hph) as Hctx.
  split; [apply analyzeMotionContext_rejects |].
  split; [| split].
  - intros Hrej. subst s' effects. rewrite Hrej.
    unfold handleAnalyzeAndStart.
    destruct (trim_is_empty motionInput); cbn.
    { conjuncts; auto. }
    destruct isOnline; cbn; conjuncts; auto;
      intros u [H | []]; discriminate H.
  - subst s' effects. unfold handleAnalyzeAndStart.
    destruct (trim_is_empty motionInput); cbn; [congruence |].
    destruct isOnline; cbn; [| congruence].
    destruct analysis as [context |]; cbn; [| congruence].
    intros _. exists context. auto.
  - intros Hkey Hreply Hmotion ->.
    assert (Hres : analysis = Resolved GeminiService.fallback_context)
      by (apply analyzeMotionContext_fallback; assumption).
    subst s' effects. rewrite Hres. unfold handleAnalyzeAndStart.
    rewrite Hmotion. cbn. auto.
Qed.

Lemma analyze_failure_keeps_setup_witness :
  stored Examples.fresh
    (handleAnalyzeAndStart Examples.motion true false
       (GeminiService.analyzeMotionContext None GeminiService.ApiError
          Examples.motion)
       Examples.fresh)
  = Examples.fresh
  /\ phase Examples.fresh = setup
  /\ motionContext Examples.fresh = None.
Proof.
  destruct (analyze_failure_keeps_setup None GeminiService.ApiError
              Examples.motion true false Examples.fresh
              (reachable_fresh _ _ _) eq_refl) as (_ & Hrejected & _).
  destruct (Hrejected eq_refl) as (_ & _ & Hsame & Hphase & Hcontext).
  rewrite Hsame in Hphase, Hcontext. auto.
Defined.

(** C1, as stated, fails: a key is set and the request of the motion
    analysis fails; the session of the setup view moves on to ['prep'] all
    the same, with the fallback context attached. *)
Lemma failed_analysis_leaves_setup :
  reachable Examples.fresh
  /\ phase Examples.fresh = setup
  /\ phase
       (stored Examples.fresh
          (Wiring.analyzeAndStart (Some "key") GeminiService.ApiError
             Examples.motion true false Examples.fresh))
     = prep
  /\ motionContext
       (stored Examples.fresh
          (Wiring.analyzeAndStart (Some "key") GeminiService.ApiError
             Examples.motion true false Examples.fresh))
     = Some GeminiService.fallback_context.
Proof. split; [apply fresh_reachable | repeat split]. Qed.

(** C3.  For every reached session in phase ['debate'], when the ranking
    call of [handleFinishDebate] fails (the awaited [generateFinalRanking]
    rejects, or its result has no rankings), the session ends in phase
    ['debate'] with [isAdjudicating] false and [finalRankings] and
    [overallAdjudication] null: it is the session from before the action.
    No [onUpdate] of the action carries rankings or an adjudication, so no
    part of a ranking is ever stored. *)
Theorem finish_failure_rolls_back (confirmAnswer : bool)
    (ranking : Outcome RankingResult.t) (s : DebateSession.t) :
  reachable s -> phase s = debate -> rankingFailed ranking = true ->
  let effects := handleFinishDebate confirmAnswer ranking s in
  let s' := stored s effects in
  phase s' = debate /\ isAdjudicating s' = false
  /\ finalRankings s' = None /\ overallAdjudication s' = None
  /\ s' = s
  /\ forall u, In (OnUpdate u) effects ->
       finalRankings u = None /\ overallAdjudication u = None.
Proof.
  intros Hs Hph Hfail effects s'.
  destruct (reachable_invariant s Hs) as [_ _ _ _ Hadj Hrank _].
  assert (Hnone : finalRankings s = None /\ overallAdjudication s = None)
    by (apply Hrank; rewrite Hph; discriminate).
  destruct Hnone as (Hfr & Hoa).
  assert (Heff : effects = []
            \/ effects =
               [OnUpdate (with_phase results (with_isAdjudicating true s));
                OnUpdate (with_phase debate (with_isAdjudicating false s));
                Alert "Adjudication failed. Please check your connection and try again."]).
  { subst effects. unfold handleFinishDebate.
    destruct (_ && _); [now left | right].
    destruct ranking as [result |]; [| reflexivity].
    cbn in Hfail.
    destruct (RankingResult.rankings result); [discriminate | reflexivity]. }
  assert (Hsame : with_phase debate (with_isAdjudicating false s) = s).
  { destruct s; cbn in *; subst; reflexivity. }
  subst s'. destruct Heff as [-> | ->]; cbn.
  - conjuncts; auto. intros u [].
  - rewrite Hsame. conjuncts; auto.
    intros u [H | [H | [H | []]]]; inversion H; subst; cbn; auto.
Qed.

Lemma finish_failure_rolls_back_witness :
  let ranking :=
    GeminiService.generateFinalRanking (Some "key") GeminiService.ApiError
      (speakers Examples.oneAbsent) (topic Examples.oneAbsent)
      (motionContext Examples.oneAbsent) in
  let s' :=
    stored Examples.oneAbsent (handleFinishDebate true ranking Examples.oneAbsent) in
  phase s' = debate /\ isAdjudicating s' = false
  /\ finalRankings s' = None /\ overallAdjudication s' = None.
Proof.
  pose proof (finish_failure_rolls_back true
                (GeminiService.generateFinalRanking (Some "key")
                   GeminiService.ApiError
                   (speakers Examples.oneAbsent) (topic Examples.oneAbsent)
                   (motionContext Examples.oneAbsent))
                Examples.oneAbsent oneAbsent_reachable eq_refl eq_refl) as H.
  cbv zeta in H. intuition.
Defined.

(** X1.  A motion analysis whose request fails, or whose answer does not
    parse, does not fail for the dashboard: with an API key set,
    [analyzeMotionContext] resolves to the fallback context, and
    [handleAnalyzeAndStart], online and with a motion that is not blank,
    attaches that context and moves the session on to ['prep'] (or to
    ['debate'] when prep is skipped). *)
Theorem analysis_error_advances_with_fallback (API_KEY : option string)
    (reply : GeminiService.Reply MotionJson.t) (motionInput : string)
    (skipPrepTime : bool) (s : DebateSession.t) :
  GeminiService.has_api_key API_KEY = true ->
  reply = GeminiService.ApiError \/ reply = GeminiService.Malformed ->
  trim_is_empty motionInput = false ->
  let s' :=
    stored s
      (handleAnalyzeAndStart motionInput true skipPrepTime
         (GeminiService.analyzeMotionContext API_KEY reply motionInput) s) in
  phase s' = (if skipPrepTime then debate else prep)
  /\ motionContext s' = Some GeminiService.fallback_context
  /\ topic s' = motionInput
  /\ prepTimeLeft s' = (if skipPrepTime then 0 else PREP_TIME_SECONDS).
Proof.
  intros Hkey Hreply Hmotion.
  rewrite (analyzeMotionContext_fallback _ _ _ Hkey Hreply).
  unfold handleAnalyzeAndStart. rewrite Hmotion. cbn. auto.
Qed.

Lemma analysis_error_advances_with_fallback_witness :
  phase
    (stored Examples.fresh
       (handleAnalyzeAndStart Examples.motion true false
          (GeminiService.analyzeMotionContext (Some "key")
             GeminiService.ApiError Examples.motion)
          Examples.fresh))
  = prep.
Proof.
  apply (analysis_error_advances_with_fallback (Some "key")
           GeminiService.ApiError Examples.motion false Examples.fresh
           eq_refl (or_introl eq_refl) eq_refl).
Defined.

End Phases.

(** ** Timers *)

Section Timers.

Import DebateSession DebateDashboard Lifecycle.

Lemma speechTimerEffect_inv (sp : Speaker.t) (e : SpeakerRecorder.Effect) :
  SpeakerRecorder.speechTimerEffect sp = Some e ->
  Speaker.isSpeechTimerRunning sp = true /\ 0 < Speaker.speechTimeLeft sp
  /\ e = SpeakerRecorder.OnUpdateSpeaker (Speaker.id sp)
           (SpeakerRecorder.upd_speechTimeLeft (Speaker.speechTimeLeft sp - 1)).
Proof.
  unfold SpeakerRecorder.speechTimerEffect.
  destruct (Speaker.isSpeechTimerRunning sp); cbn; [| discriminate].
  destruct (Speaker.speechTimeLeft sp >? 0) eqn:Hpos; [| discriminate].
  apply Z.gtb_lt in Hpos.
  intros H; inversion H; subst. auto.
Qed.

Lemma speechTimerEffect_zero (sp : Speaker.t) :
  Speaker.speechTimeLeft sp = 0 ->
  SpeakerRecorder.speechTimerEffect sp = None.
Proof.
  intros H. unfold SpeakerRecorder.speechTimerEffect. rewrite H.
  now destruct (Speaker.isSpeechTimerRunning sp).
Qed.

Lemma prepTimerEffect_zero (s : DebateSession.t) :
  prepTimeLeft s = 0 -> prepTimerEffect s = None.
Proof.
  intros H. unfold prepTimerEffect. rewrite H. now destruct (phase s).
Qed.

(** C9.  In every reached session the prep time left lies between 0 and
    [PREP_TIME_SECONDS] and every speaker's speech time left between 0 and
    [SPEECH_TIME_SECONDS].  A tick of either timer is armed only while time
    is left (and, for a speech timer, while its flag is set), and writes
    the time left less exactly one; at 0 no tick is armed. *)
Theorem timers_stay_in_range (s : DebateSession.t) :
  reachable s ->
  0 <= prepTimeLeft s <= PREP_TIME_SECONDS
  /\ (forall sp, In sp (speakers s) ->
        0 <= Speaker.speechTimeLeft sp <= SPEECH_TIME_SECONDS)
  /\ (forall e, prepTimerEffect s = Some e ->
        0 < prepTimeLeft s
        /\ prepTimeLeft (stored s [e]) = prepTimeLeft s - 1)
  /\ (prepTimeLeft s = 0 -> prepTimerEffect s = None)
  /\ (forall sp e, In sp (speakers s) ->
        SpeakerRecorder.speechTimerEffect sp = Some e ->
        exists u,
          e = SpeakerRecorder.OnUpdateSpeaker (Speaker.id sp) u
          /\ Speaker.isSpeechTimerRunning sp = true
          /\ 0 < Speaker.speechTimeLeft sp
          /\ Speaker.speechTimeLeft (merge sp u) = Speaker.speechTimeLeft sp - 1)
  /\ (forall sp, In sp (speakers s) -> Speaker.speechTimeLeft sp = 0 ->
        SpeakerRecorder.speechTimerEffect sp = None).
Proof.
  intros Hs.
  destruct (reachable_invariant s Hs) as [_ Hspeech _ (Hprep0 & Hprep) _ _ _].
  rewrite Forall_forall in Hspeech.
  conjuncts; auto using prepTimerEffect_zero, speechTimerEffect_zero.
  - intros e He. apply prepTimerEffect_inv in He as (_ & Hpos & ->). auto.
  - intros sp e _ He. apply speechTimerEffect_inv in He as (Hrun & Hpos & ->).
    eexists. conjuncts; eauto.
Qed.

Lemma timers_stay_in_range_witness :
  0 <= prepTimeLeft Examples.allScored <= PREP_TIME_SECONDS
  /\ (forall sp, In sp (speakers Examples.allScored) ->
        0 <= Speaker.speechTimeLeft sp <= SPEECH_TIME_SECONDS).
Proof.
  pose proof (timers_stay_in_range Examples.allScored allScored_reachable) as H.
  split; apply H.
Defined.

Lemma NoDup_map_same {A B : Type} (f : A -> B) (l : list A) (a b : A) :
  NoDup (map f l) -> In a l -> In b l -> f a = f b -> a = b.
Proof.
  induction l as [| x l IH]; cbn; [contradiction |].
  intros Hnd Ha Hb Hab. inversion Hnd as [| ? ? Hx Hl]; subst.
  destruct Ha as [-> | Ha], Hb as [-> | Hb]; auto.
  - exfalso. apply Hx. rewrite Hab. now apply in_map.
  - exfalso. apply Hx. rewrite <- Hab. now apply in_map.
Qed.

Lemma roster_ids (s : DebateSession.t) :
  invariant s ->
  map Speaker.id (speakers s) = ["1"; "2"; "3"; "4"; "5"; "6"; "7"; "8"].
Proof.
  intros Hinv. pose proof (inv_roster s Hinv) as H.
  apply (f_equal (map (fun x => fst (fst x)))) in H.
  now rewrite !map_map in H.
Qed.

Lemma same_id_same_speaker (s : DebateSession.t) (a b : Speaker.t) :
  invariant s -> In a (speakers s) -> In b (speakers s) ->
  Speaker.id a = Speaker.id b -> a = b.
Proof.
  intros Hinv. apply NoDup_map_same. rewrite (roster_ids s Hinv).
  repeat constructor; cbn; intuition discriminate.
Qed.

Lemma step_speakers (s s' : DebateSession.t) :
  step s s' ->
  speakers s' = speakers s
  \/ exists speaker u,
       In speaker (speakers s) /\ recorderUpdate speaker u
       /\ speakers s' = newSpeakers (speakers s) (Speaker.id speaker) u.
Proof.
  intros [e He | motionInput isOnline skip analysis Hph | Hph
          | speaker id u Hph Hin Hcall | confirmAnswer ranking Hph].
  - apply prepTimerEffect_inv in He as (_ & _ & ->). now left.
  - left. unfold handleAnalyzeAndStart.
    destruct (trim_is_empty motionInput); [reflexivity |].
    destruct isOnline; [| reflexivity]. now destruct analysis.
  - now left.
  - apply recorderCall_inv in Hcall as (-> & Hu). right. eauto.
  - left. unfold handleFinishDebate.
    destruct (_ && _); [reflexivity |].
    destruct ranking as [result |]; [| reflexivity].
    now destruct (RankingResult.rankings result).
Qed.







End Timers.

(** ** The speaker registry *)

Section Registry.

Import DebateSession DebateDashboard Lifecycle.

Lemma with_speakers_same (s : DebateSession.t) :
  with_speakers (speakers s) s = s.
Proof. now destruct s. Qed.

Lemma newSpeakers_nth_error (l : list Speaker.t) (id : string)
    (u : PartialSpeaker.t) (i : nat) :
  nth_error (newSpeakers l id u) i
  = option_map
      (fun sp => if String.eqb (Speaker.id sp) id then merge sp u else sp)
      (nth_error l i).
Proof. unfold newSpeakers. apply nth_error_map. Qed.

Lemma newSpeakers_no_match (l : list Speaker.t) (id : string)
    (u : PartialSpeaker.t) :
  (forall sp, In sp l -> Speaker.id sp <> id) -> newSpeakers l id u = l.
Proof.
  intros Hno. unfold newSpeakers.
  rewrite <- (map_id l) at 2. apply map_ext_in.
  intros sp Hin. apply Hno in Hin. apply String.eqb_neq in Hin.
  now rewrite Hin.
Qed.

(** C7.  [handleUpdateSpeaker(id, updates)] keeps the number and the order
    of the speakers; a speaker whose id is not [id] is the same value at
    the same place afterwards, and one whose id is [id] is merged with the
    update; when no speaker has the id, the session is unchanged; when the
    ids are distinct, every place other than the target's holds what it
    held.  Nothing but [speakers] changes in the session. *)
Theorem update_changes_only_target (s : DebateSession.t) (id : string)
    (updates : PartialSpeaker.t) :
  let s' := stored s (handleUpdateSpeaker id updates s) in
  List.length (speakers s') = List.length (speakers s)
  /\ (forall i sp, nth_error (speakers s) i = Some sp ->
        Speaker.id sp <> id -> nth_error (speakers s') i = Some sp)
  /\ (forall i sp, nth_error (speakers s) i = Some sp ->
        Speaker.id sp = id ->
        nth_error (speakers s') i = Some (merge sp updates))
  /\ ((forall sp, In sp (speakers s) -> Speaker.id sp <> id) -> s' = s)
  /\ (NoDup (map Speaker.id (speakers s)) ->
      forall i j sp, nth_error (speakers s) i = Some sp ->
        Speaker.id sp = id -> j <> i ->
        nth_error (speakers s') j = nth_error (speakers s) j)
  /\ s' = with_speakers (speakers s') s.
Proof.
  cbn. conjuncts.
  - apply newSpeakers_length.
  - intros i sp Hi Hne. rewrite newSpeakers_nth_error, Hi. cbn.
    apply String.eqb_neq in Hne. now rewrite Hne.
  - intros i sp Hi He. rewrite newSpeakers_nth_error, Hi. cbn.
    apply String.eqb_eq in He. now rewrite He.
  - intros Hno. rewrite newSpeakers_no_match by exact Hno.
    apply with_speakers_same.
  - intros Hnd i j sp Hi He Hji. rewrite newSpeakers_nth_error.
    destruct (nth_error (speakers s) j) as [sp' |] eqn:Hj; [| reflexivity].
    cbn. destruct (String.eqb (Speaker.id sp') id) eqn:He'; [| reflexivity].
    apply String.eqb_eq in He'. exfalso. apply Hji.
    rewrite NoDup_nth_error in Hnd. apply Hnd.
    + rewrite length_map. apply nth_error_Some. congruence.
    + rewrite !nth_error_map, Hi, Hj. cbn. congruence.
  - reflexivity.
Qed.

(** C8, as the code has it.  Every update a [SpeakerRecorder] sends (timer
    tick, toggle, reset, evaluation result) carries none of the keys [id],
    [role], [team]: merged into any speaker it keeps these three, so after
    [handleUpdateSpeaker] every speaker of a reached session still has the
    id, role and team of the roster the session was created with.
    [handleUpdateSpeaker] itself does not protect the three keys. *)
Theorem recorder_updates_keep_identity (s : DebateSession.t)
    (speaker : Speaker.t) (id : string) (updates : PartialSpeaker.t) :
  reachable s -> In speaker (speakers s) ->
  recorderCall speaker id updates ->
  let s' := stored s (handleUpdateSpeaker id updates s) in
  (forall sp, identity (merge sp updates) = identity sp)
  /\ map identity (speakers s') = map identity (speakers s)
  /\ map identity (speakers s') = map identity INITIAL_SPEAKERS.
Proof.
  intros Hs Hin Hcall. cbn.
  apply recorderCall_inv in Hcall as (-> & Hu).
  apply recorderUpdate_keepsIdentity in Hu.
  conjuncts.
  - intros sp. now apply merge_identity.
  - now apply newSpeakers_identity.
  - rewrite newSpeakers_identity by exact Hu.
    apply inv_roster, reachable_invariant, Hs.
Qed.

Lemma recorder_updates_keep_identity_witness :
  map identity
    (speakers
       (stored Examples.inDebate
          (handleUpdateSpeaker "1"
             (SpeakerRecorder.upd_isSpeechTimerRunning true)
             Examples.inDebate)))
  = map identity INITIAL_SPEAKERS.
Proof.
  apply (recorder_updates_keep_identity Examples.inDebate
           (initial_speaker "1" PM OG) "1"
           (SpeakerRecorder.upd_isSpeechTimerRunning true)
           inDebate_reachable).
  - vm_compute. tauto.
  - now apply call_toggle.
Defined.

(** C8, as stated, fails: an update that carries [id], [role] and [team]
    overwrites all three in the targeted speaker. *)
Lemma update_can_change_identity :
  nth_error (speakers Examples.inDebate) 0
  = Some (Speaker.mk "1" PM OG "" false None None None None 440 false)
  /\ nth_error
       (speakers
          (stored Examples.inDebate
             (handleUpdateSpeaker "1"
                (PartialSpeaker.mk (Some "9") (Some OW) (Some CO)
                   None None None None None None None None)
                Examples.inDebate))) 0
     = Some (Speaker.mk "9" OW CO "" false None None None None 440 false).
Proof. split; reflexivity. Qed.

End Registry.

(** ** The ranking aggregation *)

Section Ranking.

Import DebateSession DebateDashboard Lifecycle.

Lemma finalRankingsOf_map (speakers : list Speaker.t)
    (rankings : list Ranking.t) :
  finalRankingsOf speakers rankings
  = map (fun r =>
           TeamResult.mk (Ranking.team r) (Ranking.rank r)
             (teamTotalScore speakers (Ranking.team r)) (Ranking.reasoning r))
        rankings.
Proof. unfold finalRankingsOf. rewrite map_map. reflexivity. Qed.

(** [s.score || 0] is the contribution the specification describes, for a
    speaker who has a score exactly when completed. *)
Lemma num_or_zero_contribution (sp : Speaker.t) :
  scoredIffCompleted sp ->
  num_or_zero (Speaker.score sp) = Spec.contribution sp.
Proof.
  unfold scoredIffCompleted, Spec.contribution, num_or_zero.
  intros (Hto & Hfrom).
  destruct (Speaker.isCompleted sp), (Speaker.score sp) as [z |]; auto.
  - now destruct (Z.eqb_spec z 0).
  - discriminate Hto; reflexivity.
Qed.

(** The roster of a session: eight speakers, two per team, opening teams
    first. *)
Lemma roster_shape (s : DebateSession.t) :
  invariant s ->
  exists s1 s2 s3 s4 s5 s6 s7 s8,
    speakers s = [s1; s2; s3; s4; s5; s6; s7; s8]
    /\ map Speaker.team (speakers s) = [OG; OO; OG; OO; CG; CO; CG; CO].
Proof.
  intros Hinv. pose proof (inv_roster s Hinv) as H.
  assert (Hteams : map Speaker.team (speakers s)
                   = [OG; OO; OG; OO; CG; CO; CG; CO]).
  { apply (f_equal (map snd)) in H. now rewrite !map_map in H. }
  assert (Hlen : List.length (speakers s) = 8%nat)
    by (rewrite <- (length_map identity), H; reflexivity).
  destruct (speakers s)
    as [| s1 [| s2 [| s3 [| s4 [| s5 [| s6 [| s7 [| s8 [| s9 l]]]]]]]]];
    try discriminate Hlen.
  exists s1, s2, s3, s4, s5, s6, s7, s8. split; [reflexivity | exact Hteams].
Qed.

Lemma teamTotalScore_spec (s : DebateSession.t) (t : Team) :
  invariant s ->
  teamTotalScore (speakers s) (Team_value t) = Spec.teamTotal (speakers s) t.
Proof.
  intros Hinv.
  destruct (roster_shape s Hinv) as
    (s1 & s2 & s3 & s4 & s5 & s6 & s7 & s8 & Hl & Hteams).
  pose proof (inv_scored s Hinv) as Hscored.
  rewrite Hl in *. clear Hl.
  injection Hteams as T1 T2 T3 T4 T5 T6 T7 T8.
  repeat match goal with
         | H : Forall _ (_ :: _) |- _ => inversion H; clear H; subst
         end.
  unfold teamTotalScore, Spec.teamTotal. cbn [filter].
  rewrite T1, T2, T3, T4, T5, T6, T7, T8.
  destruct t; cbn; rewrite <- !num_or_zero_contribution by assumption; lia.
Qed.

(** C6.  For every reached session and every rank list the ranking call
    returns, [handleFinishDebate] raises no error and stores one TeamResult
    per entry, in the order given, with the entry's team, rank and
    reasoning and, as [totalScore], the sum over the team's speakers of
    [s.score || 0].  For each of the four teams that sum is the sum of the
    contributions of the team's two speakers of the roster (speakers 1 and
    3 for OG, 2 and 4 for OO, 5 and 7 for CG, 6 and 8 for CO), where a
    completed speaker contributes the score and an incomplete one 0. *)
Theorem finish_totals_are_sums (s : DebateSession.t)
    (result : RankingResult.t) (rankings : list Ranking.t) :
  reachable s -> RankingResult.rankings result = Some rankings ->
  let effects := handleFinishDebate true (Resolved result) s in
  let s' := stored s effects in
  alerts effects = false
  /\ finalRankings s'
     = Some (map (fun r =>
                    TeamResult.mk (Ranking.team r) (Ranking.rank r)
                      (teamTotalScore (speakers s) (Ranking.team r))
                      (Ranking.reasoning r))
                 rankings)
  /\ (forall t, teamTotalScore (speakers s) (Team_value t)
                = Spec.teamTotal (speakers s) t)
  /\ exists s1 s2 s3 s4 s5 s6 s7 s8,
       speakers s = [s1; s2; s3; s4; s5; s6; s7; s8]
       /\ Spec.teamTotal (speakers s) OG
          = Spec.contribution s1 + Spec.contribution s3
       /\ Spec.teamTotal (speakers s) OO
          = Spec.contribution s2 + Spec.contribution s4
       /\ Spec.teamTotal (speakers s) CG
          = Spec.contribution s5 + Spec.contribution s7
       /\ Spec.teamTotal (speakers s) CO
          = Spec.contribution s6 + Spec.contribution s8.
Proof.
  intros Hs Hrankings.
  pose proof (reachable_invariant s Hs) as Hinv.
  unfold handleFinishDebate. rewrite andb_false_r, Hrankings. cbn.
  conjuncts; auto using teamTotalScore_spec.
  - now rewrite finalRankingsOf_map.
  - destruct (roster_shape s Hinv) as
      (s1 & s2 & s3 & s4 & s5 & s6 & s7 & s8 & Hl & Hteams).
    exists s1, s2, s3, s4, s5, s6, s7, s8.
    rewrite Hl in *.
    injection Hteams as T1 T2 T3 T4 T5 T6 T7 T8.
    unfold Spec.teamTotal. cbn [filter].
    rewrite T1, T2, T3, T4, T5, T6, T7, T8. cbn.
    conjuncts; auto; lia.
Qed.

Lemma finish_totals_are_sums_witness :
  finalRankings
    (stored Examples.allScored
       (handleFinishDebate true
          (Resolved (RankingResult.mk (Some Examples.rankList) (Some "RFD")))
          Examples.allScored))
  = Some
      [ TeamResult.mk "Opening Government" 1 35 "Set the terms of the debate.";
        TeamResult.mk "Closing Government" 2 35 "Extended the case.";
        TeamResult.mk "Opening Opposition" 3 29 "Engaged late.";
        TeamResult.mk "Closing Opposition" 4 25 "Added little." ]
  /\ finalRankings
       (stored Examples.oneAbsent
          (handleFinishDebate true
             (Resolved (RankingResult.mk (Some Examples.rankList) (Some "RFD")))
             Examples.oneAbsent))
     = Some
         [ TeamResult.mk "Opening Government" 1 0 "Set the terms of the debate.";
           TeamResult.mk "Closing Government" 2 16 "Extended the case.";
           TeamResult.mk "Opening Opposition" 3 0 "Engaged late.";
           TeamResult.mk "Closing Opposition" 4 0 "Added little." ].
Proof.
  pose proof (finish_totals_are_sums Examples.allScored
                (RankingResult.mk (Some Examples.rankList) (Some "RFD"))
                Examples.rankList allScored_reachable eq_refl) as Hall.
  pose proof (finish_totals_are_sums Examples.oneAbsent
                (RankingResult.mk (Some Examples.rankList) (Some "RFD"))
                Examples.rankList oneAbsent_reachable eq_refl) as Hone.
  cbv zeta in Hall, Hone.
  destruct Hall as (_ & Hall & _), Hone as (_ & Hone & _).
  split; [rewrite Hall | rewrite Hone]; reflexivity.
Defined.

(** C2, as the code has it.  [handleFinishDebate] checks nothing about the
    rank list.  It fails, with the alert, the phase back at ['debate'] and
    the rankings as they were, exactly when the ranking call rejects or
    its result has no rank list; for every rank list, of any length, teams
    and ranks, it raises no alert, ends in phase ['results'] and stores one
    TeamResult per entry with the entry's team, rank and reasoning. *)
Theorem finish_stores_any_rank_list (ranking : Outcome RankingResult.t)
    (s : DebateSession.t) :
  let effects := handleFinishDebate true ranking s in
  let s' := stored s effects in
  (rankingFailed ranking = true ->
   alerts effects = true /\ phase s' = debate /\ isAdjudicating s' = false
   /\ finalRankings s' = finalRankings s)
  /\ (forall result rankings,
        ranking = Resolved result ->
        RankingResult.rankings result = Some rankings ->
        alerts effects = false /\ phase s' = results
        /\ isAdjudicating s' = false
        /\ exists output,
             finalRankings s' = Some output
             /\ List.length output = List.length rankings
             /\ map (fun o => Ranking.mk (TeamResult.team o) (TeamResult.rank o)
                                (TeamResult.reasoning o)) output
                = rankings).
Proof.
  unfold handleFinishDebate. rewrite andb_false_r. split.
  - intros Hfail. destruct ranking as [result |]; cbn in *; [| auto].
    destruct (RankingResult.rankings result); [discriminate | cbn; auto].
  - intros result rankings -> Hrankings. rewrite Hrankings. cbn.
    conjuncts; auto.
    eexists. split; [reflexivity |]. rewrite finalRankingsOf_map. split.
    + apply length_map.
    + rewrite map_map. cbn. rewrite <- (map_id rankings) at 2.
      apply map_ext. now intros [].
Qed.

(** C2, as stated, fails: a rank list without Closing Opposition and with
    rank 1 given twice is not a valid list, yet it is aggregated and
    stored, no alert is raised and the session ends in ['results']. *)
Lemma invalid_rank_list_is_stored :
  Spec.validRankList Examples.badRankList = false
  /\ reachable Examples.allScored
  /\ alerts
       (handleFinishDebate true
          (Resolved (RankingResult.mk (Some Examples.badRankList) (Some "RFD")))
          Examples.allScored)
     = false
  /\ phase
       (stored Examples.allScored
          (handleFinishDebate true
             (Resolved (RankingResult.mk (Some Examples.badRankList) (Some "RFD")))
             Examples.allScored))
     = results
  /\ finalRankings
       (stored Examples.allScored
          (handleFinishDebate true
             (Resolved (RankingResult.mk (Some Examples.badRankList) (Some "RFD")))
             Examples.allScored))
     = Some
         [ TeamResult.mk "Opening Government" 1 35 "Set the terms of the debate.";
           TeamResult.mk "Opening Opposition" 1 29 "Matched them.";
           TeamResult.mk "Closing Government" 2 35 "Extended the case." ].
Proof.
  split; [reflexivity |]. split; [apply allScored_reachable |].
  repeat split.
Qed.

End Ranking.

(** ** The session collection *)

Section Sessions.

Import App Collection.

Lemma without_In (id : string) (l : list DebateSession.t)
    (s : DebateSession.t) :
  In s (without id l) <-> In s l /\ DebateSession.id s <> id.
Proof.
  unfold without. rewrite filter_In, negb_true_iff, String.eqb_neq.
  reflexivity.
Qed.

Lemma without_ids (id : string) (l : list DebateSession.t) (i : string) :
  In i (map DebateSession.id (without id l))
  <-> In i (map DebateSession.id l) /\ i <> id.
Proof.
  rewrite !in_map_iff. split.
  - intros (s & <- & Hin). apply without_In in Hin as (Hin & Hne). eauto.
  - intros ((s & <- & Hin) & Hne). exists s. split; [reflexivity |].
    now apply without_In.
Qed.

Lemma without_cons (id : string) (s : DebateSession.t)
    (l : list DebateSession.t) :
  without id (s :: l)
  = if String.eqb (DebateSession.id s) id then without id l
    else s :: without id l.
Proof.
  unfold without; cbn. now destruct (String.eqb (DebateSession.id s) id).
Qed.

Lemma without_absent (id : string) (l : list DebateSession.t) :
  ~ In id (map DebateSession.id l) -> without id l = l.
Proof.
  induction l as [| s l IH]; intros Hno; [reflexivity |].
  rewrite without_cons. cbn in Hno.
  destruct (String.eqb_spec (DebateSession.id s) id) as [He | Hne].
  - exfalso. auto.
  - f_equal. apply IH. intuition.
Qed.

Lemma without_NoDup (id : string) (l : list DebateSession.t) :
  NoDup (map DebateSession.id l) ->
  NoDup (map DebateSession.id (without id l)).
Proof.
  induction l as [| s l IH]; intros Hnd; [constructor |].
  rewrite without_cons. cbn in Hnd.
  inversion Hnd as [| ? ? Hs Hl]; subst.
  destruct (String.eqb (DebateSession.id s) id); auto.
  cbn. constructor; auto.
  rewrite without_ids. tauto.
Qed.

(** Among distinct ids, the filter takes out one session exactly. *)
Lemma without_length (id : string) (l : list DebateSession.t) :
  NoDup (map DebateSession.id l) -> In id (map DebateSession.id l) ->
  S (List.length (without id l)) = List.length l.
Proof.
  induction l as [| s l IH]; intros Hnd Hin; [contradiction |].
  rewrite without_cons. cbn in Hnd, Hin.
  inversion Hnd as [| ? ? Hs Hl]; subst.
  destruct (String.eqb_spec (DebateSession.id s) id) as [He | Hne].
  - rewrite He in Hs. now rewrite without_absent.
  - cbn. f_equal. apply IH; [assumption |].
    destruct Hin; [contradiction | auto].
Qed.

Lemma updateSession_ids (updated : DebateSession.t) (st : State) :
  ids (updateSession updated st) = ids st.
Proof.
  unfold ids, updateSession; cbn. rewrite map_map. apply map_ext.
  intros s.
  now destruct (String.eqb_spec (DebateSession.id s) (DebateSession.id updated)).
Qed.

Lemma deleteSession_sessions (id : string) (st : State) :
  sessions (fst (deleteSession id st))
  = if Nat.eqb (List.length (sessions st)) 1 then sessions st
    else without id (sessions st).
Proof.
  unfold deleteSession, without.
  destruct (Nat.eqb (List.length (sessions st)) 1); [reflexivity |].
  destruct (String.eqb (activeSessionId st) id); [| reflexivity].
  now destruct (filter _ _).
Qed.

Lemma without_nonempty (id : string) (l : list DebateSession.t) :
  NoDup (map DebateSession.id l) -> l <> [] -> List.length l <> 1%nat ->
  without id l <> [].
Proof.
  intros Hnd Hne Hlen Hempty.
  destruct (in_dec string_dec id (map DebateSession.id l)) as [Hin | Hout].
  - pose proof (without_length id l Hnd Hin) as H.
    rewrite Hempty in H. cbn in H. congruence.
  - rewrite without_absent in Hempty by assumption. contradiction.
Qed.

(** The state [App] starts in. *)
Lemma invariant_initial (now : Z) : invariant (initialState now).
Proof.
  constructor; cbn; [discriminate | repeat constructor; intros [] | now left].
Qed.

(** Every handler of [App] keeps the invariant for as long as the ids stay
    distinct, which is for [createNewSession] to be given a reading of the
    clock that names no session yet. *)
Lemma collection_invariant_step (st st' : State) :
  invariant st -> step st st' -> NoDup (ids st') -> invariant st'.
Proof.
  intros [Hne Hnd Hact] [idClock createdClock | updated | id | s Hin |] Hnd'.
  - (* createNewSession *)
    constructor; [| assumption |]; unfold ids in *; cbn.
    + intros H. apply app_eq_nil in H as (_ & H). discriminate.
    + rewrite map_app. apply in_or_app. right. now left.
  - (* updateSession *)
    constructor; [| assumption |].
    + cbn. intros H. apply map_eq_nil in H. contradiction.
    + rewrite updateSession_ids. exact Hact.
  - (* deleteSession *)
    constructor; [| assumption |].
    + rewrite deleteSession_sessions.
      destruct (Nat.eqb_spec (List.length (sessions st)) 1); [assumption |].
      now apply without_nonempty.
    + unfold ids in *.
      pose proof (deleteSession_sessions id st) as Hsess.
      destruct (Nat.eqb_spec (List.length (sessions st)) 1) as [Hone | Hmany].
      { unfold deleteSession. apply Nat.eqb_eq in Hone. now rewrite Hone. }
      pose proof (without_nonempty id (sessions st) Hnd Hne Hmany) as Hleft.
      apply Nat.eqb_neq in Hmany.
      unfold deleteSession, without in *. rewrite Hmany.
      destruct (String.eqb_spec (activeSessionId st) id) as [He | Hne'].
      * destruct (filter _ _) as [| first rest]; [contradiction |].
        cbn. now left.
      * cbn. apply without_ids. auto.
  - (* a session is selected *)
    constructor; cbn; auto. now apply in_map.
  - (* the sort order is toggled *)
    constructor; cbn; auto.
Qed.

Lemma createNewSession_ids (idClock createdClock : Z) (st : State) :
  ids (createNewSession idClock createdClock st)
  = (ids st ++ [("session-" ++ show idClock)%string])%list.
Proof. unfold ids; cbn. now rewrite map_app. Qed.

Lemma createNewSession_invariant (idClock createdClock : Z) (st : State) :
  invariant st -> ~ In ("session-" ++ show idClock) (ids st) ->
  invariant (createNewSession idClock createdClock st).
Proof.
  intros Hinv Hfresh.
  apply (collection_invariant_step st); [assumption | apply step_create |].
  rewrite createNewSession_ids. apply NoDup_app.
  - apply Hinv.
  - repeat constructor. intros [].
  - intros a Ha [<- | []]. contradiction.
Qed.

Lemma deleteSession_invariant (id : string) (st : State) :
  invariant st -> invariant (fst (deleteSession id st)).
Proof.
  intros Hinv.
  apply (collection_invariant_step st); [assumption | apply step_delete |].
  unfold ids. rewrite deleteSession_sessions.
  destruct (Nat.eqb (List.length (sessions st)) 1);
    [apply Hinv | apply without_NoDup, Hinv].
Qed.

(** C10.  The guard of [deleteSession] counts the sessions and does not
    look at their ids, and [createNewSession] does not look whether the id
    it makes is in use.  Two sessions are created within one reading of the
    clock, and so under one id; the default session is deleted; then the
    shared id is deleted: the filter takes out both sessions, the
    collection is empty, reading [newSessions[0].id] throws, and no active
    session is found any more.  The empty collection is a state the
    handlers of [App] reach. *)
Theorem delete_empties_shared_id :
  let twice := createNewSession 1 1 (createNewSession 1 1 (initialState 0)) in
  let two := fst (deleteSession "default-1" twice) in
  ids twice = ["default-1"; "session-1"; "session-1"]
  /\ deleteSession "default-1" twice
     = (mkState [freshSession "session-1" "New Debate 2" 1;
                 freshSession "session-1" "New Debate 3" 1]
          "session-1" date, Normal)
  /\ deleteSession "session-1" two = (mkState [] "session-1" date, Throws)
  /\ sessions (fst (deleteSession "session-1" two)) = []
  /\ View.activeSession (fst (deleteSession "session-1" two)) = None
  /\ reachable (fst (deleteSession "session-1" two)).
Proof.
  cbv zeta. conjuncts; try reflexivity.
  do 2 (eapply reachable_step; [| apply step_delete]).
  do 2 (eapply reachable_step; [| apply step_create]).
  apply (reachable_initial 0).
Qed.

(** While no two sessions share an id, [deleteSession] does keep a session
    and does not throw: with exactly one session it changes nothing;
    otherwise it keeps, in order, exactly the sessions whose id is not the
    given one, which is one session fewer when the id is in use and the
    same list when it is not; when the deleted session was the active one,
    the first session that remains becomes active; otherwise the active
    session stays.  The sessions left are as before: there is one, their
    ids are distinct and the active id is among them. *)
Theorem delete_keeps_a_session (st : State) (id : string) :
  invariant st ->
  let st' := fst (deleteSession id st) in
  invariant st'
  /\ sessions st' <> []
  /\ snd (deleteSession id st) = Normal
  /\ (List.length (sessions st) = 1%nat -> st' = st)
  /\ (List.length (sessions st) <> 1%nat ->
      (forall s, In s (sessions st')
                 <-> In s (sessions st) /\ DebateSession.id s <> id)
      /\ sessions st'
         = filter (fun s => negb (String.eqb (DebateSession.id s) id))
             (sessions st)
      /\ (In id (ids st) ->
          S (List.length (sessions st')) = List.length (sessions st))
      /\ (~ In id (ids st) -> sessions st' = sessions st)
      /\ (activeSessionId st = id ->
          exists first rest,
            sessions st' = first :: rest
            /\ activeSessionId st' = DebateSession.id first)
      /\ (activeSessionId st <> id ->
          activeSessionId st' = activeSessionId st)).
Proof.
  intros Hinv st'.
  pose proof (deleteSession_invariant id st Hinv) as Hinv'. fold st' in Hinv'.
  destruct Hinv as [Hne Hnd Hact].
  pose proof (deleteSession_sessions id st) as Hsess. fold st' in Hsess.
  conjuncts; auto.
  - apply Hinv'.
  - unfold deleteSession.
    destruct (Nat.eqb_spec (List.length (sessions st)) 1) as [| Hmany];
      [reflexivity |].
    destruct (String.eqb (activeSessionId st) id); [| reflexivity].
    pose proof (without_nonempty id (sessions st) Hnd Hne Hmany) as Hleft.
    unfold without in Hleft. now destruct (filter _ _).
  - intros Hone. subst st'. unfold deleteSession.
    apply Nat.eqb_eq in Hone. now rewrite Hone.
  - intros Hmany.
    pose proof (without_nonempty id (sessions st) Hnd Hne Hmany) as Hleft.
    apply Nat.eqb_neq in Hmany. rewrite Hmany in Hsess.
    conjuncts.
    + intros s. rewrite Hsess. apply without_In.
    + exact Hsess.
    + intros Hin. rewrite Hsess. now apply without_length.
    + intros Hout. rewrite Hsess. now apply without_absent.
    + intros He. subst st'. unfold deleteSession. rewrite Hmany.
      apply String.eqb_eq in He. rewrite He. unfold without in Hleft.
      destruct (filter _ _) as [| first rest]; [contradiction |].
      exists first, rest. split; reflexivity.
    + intros Hne'. subst st'. unfold deleteSession. rewrite Hmany.
      apply String.eqb_neq in Hne'. now rewrite Hne'.
Qed.

Lemma delete_keeps_a_session_witness :
  snd (deleteSession "session-1"
         (toggleSortOrder (createNewSession 1 2 (initialState 0))))
  = Normal
  /\ fst (deleteSession "session-1"
            (toggleSortOrder (createNewSession 1 2 (initialState 0))))
     = mkState [freshSession "default-1" "New Debate 1" 0] "default-1" name.
Proof.
  assert (Hinv : invariant
            (toggleSortOrder (createNewSession 1 2 (initialState 0)))).
  { apply (collection_invariant_step (createNewSession 1 2 (initialState 0)));
      [| apply step_sort | repeat constructor; cbn; intuition discriminate].
    apply createNewSession_invariant; [apply invariant_initial |].
    cbn. intros [H | []]. discriminate H. }
  destruct (delete_keeps_a_session _ "session-1" Hinv) as (_ & _ & Hnormal & _).
  split; [exact Hnormal | reflexivity].
Defined.

End Sessions.

(** ** The dashboard and the store *)

Section Replacing.

Import DebateSession DebateDashboard Wiring.

Lemma fromDashboard_id (s : DebateSession.t) (effects : list Effect) :
  fromDashboard s effects ->
  forall u, In (OnUpdate u) effects -> id u = id s.
Proof.
  intros [e He | motionInput isOnline skip analysis | | i updates
          | confirmAnswer ranking] u Hin.
  - apply prepTimerEffect_inv in He as (_ & _ & ->). each_update Hin.
  - unfold handleAnalyzeAndStart in Hin.
    destruct (trim_is_empty motionInput), isOnline, analysis; each_update Hin.
  - each_update Hin.
  - each_update Hin.
  - unfold handleFinishDebate in Hin.
    destruct (_ && _); [destruct Hin |].
    destruct ranking as [result |];
      [destruct (RankingResult.rankings result) |]; each_update Hin.
Qed.

Lemma updateSession_twice (u v : DebateSession.t) (st : App.State) :
  id u = id v ->
  App.updateSession v (App.updateSession u st) = App.updateSession v st.
Proof.
  intros Hid. unfold App.updateSession; cbn. f_equal.
  rewrite map_map. apply map_ext. intros x. rewrite Hid.
  destruct (String.eqb (id x) (id v)) eqn:Hx; [| now rewrite Hx].
  now rewrite Hid, String.eqb_refl.
Qed.

Lemma updateSession_same (s : DebateSession.t) (st : App.State) :
  NoDup (Collection.ids st) -> In s (App.sessions st) ->
  App.updateSession s st = st.
Proof.
  intros Hnd Hin. destruct st as [l active order]. unfold App.updateSession.
  cbn in *. f_equal. rewrite <- (map_id l) at 2. apply map_ext_in.
  intros x Hx. destruct (String.eqb_spec (id x) (id s)) as [He |]; [| reflexivity].
  symmetry. eapply NoDup_map_same; eauto.
Qed.

Lemma run_updateSession (effects : list Effect) :
  forall (cur : DebateSession.t) (st : App.State),
    (forall u, In (OnUpdate u) effects -> id u = id cur) ->
    run effects (App.updateSession cur st)
    = App.updateSession (stored cur effects) st.
Proof.
  induction effects as [| [u | message] rest IH]; intros cur st Hids; cbn.
  - reflexivity.
  - assert (Hu : id u = id cur) by (apply Hids; now left).
    rewrite updateSession_twice by congruence.
    apply IH. intros v Hv. rewrite Hu. apply Hids. now right.
  - apply IH. intros v Hv. apply Hids. now right.
Qed.

Lemma stored_id (effects : list Effect) :
  forall cur s : DebateSession.t,
    id cur = id s ->
    (forall u, In (OnUpdate u) effects -> id u = id s) ->
    id (stored cur effects) = id s.
Proof.
  induction effects as [| [u | message] rest IH]; intros cur s Hcur Hall;
    cbn; auto.
  - apply IH; [apply Hall; now left | intros v Hv; apply Hall; now right].
  - apply IH; [assumption | intros v Hv; apply Hall; now right].
Qed.

Lemma updateSession_after_run (effects : list Effect) (i : string) :
  (forall u, In (OnUpdate u) effects -> id u = i) ->
  forall (v : DebateSession.t) (st : App.State),
    id v = i ->
    App.updateSession v (run effects st) = App.updateSession v st.
Proof.
  induction effects as [| [u | message] rest IH]; intros Hids v st Hv; cbn.
  - reflexivity.
  - rewrite IH by (auto; intros w Hw; apply Hids; now right).
    apply updateSession_twice. rewrite Hv. apply Hids. now left.
  - apply IH; auto. intros w Hw. apply Hids. now right.
Qed.

Lemma run_from_equal_updates (effects : list Effect) (i : string) :
  (forall u, In (OnUpdate u) effects -> id u = i) ->
  (exists u, In (OnUpdate u) effects) ->
  forall (s : DebateSession.t) (X Y : App.State),
    (forall v, id v = i -> App.updateSession v X = App.updateSession v Y) ->
    run effects X = App.updateSession (stored s effects) Y.
Proof.
  induction effects as [| [u | message] rest IH]; intros Hids (w & Hw) s X Y HXY.
  - destruct Hw.
  - cbn. rewrite HXY by (apply Hids; now left).
    apply run_updateSession. intros v Hv.
    transitivity i; [apply Hids; now right | symmetry; apply Hids; now left].
  - cbn. apply IH; auto.
    + intros v Hv. apply Hids. now right.
    + destruct Hw as [Hw | Hw]; [discriminate Hw | eauto].
Qed.

Lemma run_without_updates (effects : list Effect) (st : App.State) :
  (forall u, ~ In (OnUpdate u) effects) -> run effects st = st.
Proof.
  induction effects as [| [u | message] rest IH]; intros Hno; cbn.
  - reflexivity.
  - exfalso. apply (Hno u). now left.
  - apply IH. intros u Hu. apply (Hno u). now right.
Qed.

Lemma updates_or_none (effects : list Effect) :
  (exists u, In (OnUpdate u) effects) \/ (forall u, ~ In (OnUpdate u) effects).
Proof.
  induction effects as [| [u | message] rest [(v & Hv) | Hno]].
  - right. intros u [].
  - left. exists u. now left.
  - left. exists u. now left.
  - left. exists v. now right.
  - right. intros u [H | H]; [discriminate H | now apply (Hno u)].
Qed.

(** X2.  The effects of a dashboard reach only the sessions of its id.  In
    any collection, whatever its ids and its sort order, the effects of a
    handler (or of the prep timer) of the dashboard of a session are run:
    when the handler hands nothing to [onUpdate] the collection is as it
    was; when it does, the run amounts to one [updateSession] with the last
    session handed over, which has the id of the session rendered.  Every
    session with another id is the same value at the same place, a session
    of that id is replaced by the last session handed over, and the ids,
    their order, the active id and the sort order are unchanged. *)
Theorem dashboard_updates_one_session (st : App.State) (s : DebateSession.t)
    (effects : list Effect) :
  fromDashboard s effects ->
  let st' := run effects st in
  id (stored s effects) = id s
  /\ ((forall u, ~ In (OnUpdate u) effects) -> st' = st)
  /\ ((exists u, In (OnUpdate u) effects) ->
      st' = App.updateSession (stored s effects) st)
  /\ (forall i x, nth_error (App.sessions st) i = Some x -> id x <> id s ->
        nth_error (App.sessions st') i = Some x)
  /\ (forall i x, nth_error (App.sessions st) i = Some x -> id x = id s ->
        (exists u, In (OnUpdate u) effects) ->
        nth_error (App.sessions st') i = Some (stored s effects))
  /\ Collection.ids st' = Collection.ids st
  /\ App.activeSessionId st' = App.activeSessionId st
  /\ App.sortOrder st' = App.sortOrder st.
Proof.
  intros Hfrom st'.
  pose proof (fromDashboard_id s effects Hfrom) as Hids.
  assert (Hid : id (stored s effects) = id s)
    by (apply stored_id; [reflexivity | assumption]).
  assert (Hwrites : (exists u, In (OnUpdate u) effects) ->
            st' = App.updateSession (stored s effects) st).
  { intros Hsome. subst st'.
    apply (run_from_equal_updates effects (id s)); auto. }
  assert (Hnone : (forall u, ~ In (OnUpdate u) effects) -> st' = st)
    by apply run_without_updates.
  conjuncts; auto.
  - intros i x Hi Hx.
    destruct (updates_or_none effects) as [Hsome | Hno];
      [| now rewrite (Hnone Hno)].
    rewrite (Hwrites Hsome). cbn. rewrite nth_error_map, Hi. cbn.
    rewrite Hid. apply String.eqb_neq in Hx. now rewrite Hx.
  - intros i x Hi Hx Hsome.
    rewrite (Hwrites Hsome). cbn. rewrite nth_error_map, Hi. cbn.
    rewrite Hid, Hx. now rewrite String.eqb_refl.
  - destruct (updates_or_none effects) as [Hsome | Hno];
      [| now rewrite (Hnone Hno)].
    rewrite (Hwrites Hsome). apply updateSession_ids.
  - destruct (updates_or_none effects) as [Hsome | Hno];
      [| now rewrite (Hnone Hno)].
    now rewrite (Hwrites Hsome).
  - destruct (updates_or_none effects) as [Hsome | Hno];
      [| now rewrite (Hnone Hno)].
    now rewrite (Hwrites Hsome).
Qed.

Lemma dashboard_updates_one_session_witness :
  run (handleSkipPrep Examples.inPrep)
      (App.toggleSortOrder
         (App.updateSession Examples.inPrep
            (App.createNewSession 1 2 (App.initialState 0))))
  = App.mkState
      [stored Examples.inPrep (handleSkipPrep Examples.inPrep);
       App.freshSession "session-1" "New Debate 2" 2]
      "session-1" App.name.
Proof.
  destruct (dashboard_updates_one_session
              (App.toggleSortOrder
                 (App.updateSession Examples.inPrep
                    (App.createNewSession 1 2 (App.initialState 0))))
              Examples.inPrep
              (handleSkipPrep Examples.inPrep) (from_skip _))
    as (_ & _ & Hrun & _).
  rewrite Hrun; [reflexivity |].
  eexists. left. reflexivity.
Defined.

End Replacing.

(** ** Speech evaluation *)

Section Evaluation.

Import DebateSession DebateDashboard Lifecycle Wiring.

Lemma str_or_nonempty (x : option string) (d : string) :
  d <> "" -> str_or x d <> "".
Proof.
  intros Hd. unfold str_or. destruct x as [s |]; [| exact Hd].
  destruct (String.eqb_spec s ""); assumption.
Qed.

Lemma analyzeSpeakerAudio_rejects (API_KEY : option string)
    (base64Audio : Outcome string) (reply : GeminiService.Reply SpeechJson.t)
    (blob : Blob) (role : SpeakerRole) (motion : string)
    (context : option MotionContext.t) :
  GeminiService.analyzeSpeakerAudio API_KEY base64Audio reply blob role motion
    context = Rejected
  <-> GeminiService.has_api_key API_KEY = false
      \/ base64Audio = Rejected
      \/ reply = GeminiService.ApiError \/ reply = GeminiService.Malformed.
Proof.
  unfold GeminiService.analyzeSpeakerAudio.
  destruct (GeminiService.has_api_key API_KEY), base64Audio, reply; cbn;
    split; intros H; auto; try discriminate;
    repeat (destruct H as [H | H]; try discriminate H); discriminate H.
Qed.

(** X3.  What an evaluation returns.  When [analyzeSpeakerAudio] resolves,
    the answer was parsed, the transcription and the feedback of the result
    are never empty (an absent or empty field gets its default text), and
    the score is the number of the answer as it came, whatever its size,
    or 0 when the answer has no number: nothing clamps it to 0..20. *)
Theorem speech_result_defaults (API_KEY : option string)
    (base64Audio : Outcome string) (reply : GeminiService.Reply SpeechJson.t)
    (blob : Blob) (role : SpeakerRole) (motion : string)
    (context : option MotionContext.t) (result : AnalysisResult.t) :
  GeminiService.analyzeSpeakerAudio API_KEY base64Audio reply blob role motion
    context = Resolved result ->
  AnalysisResult.transcription result <> ""
  /\ AnalysisResult.feedback result <> ""
  /\ exists answer,
       reply = GeminiService.Parsed answer
       /\ AnalysisResult.score result
          = match SpeechJson.score answer with Some n => n | None => 0 end
       /\ (forall text, SpeechJson.transcription answer = Some text ->
             text <> "" -> AnalysisResult.transcription result = text)
       /\ (forall text, SpeechJson.feedback answer = Some text ->
             text <> "" -> AnalysisResult.feedback result = text).
Proof.
  unfold GeminiService.analyzeSpeakerAudio.
  destruct (GeminiService.has_api_key API_KEY); cbn; [| discriminate].
  destruct base64Audio; [| discriminate].
  destruct reply as [| | answer]; try discriminate.
  intros [= <-]. cbn. conjuncts; try (apply str_or_nonempty; discriminate).
  exists answer. conjuncts; auto.
  - intros text -> Hne. cbn. now destruct (String.eqb_spec text "").
  - intros text -> Hne. cbn. now destruct (String.eqb_spec text "").
Qed.

Lemma speech_result_defaults_witness :
  AnalysisResult.score
    (AnalysisResult.mk "Transcription failed." 25 "Good rebuttal.") = 25.
Proof.
  destruct (speech_result_defaults (Some "key") (Resolved "UklGRg==")
              (GeminiService.Parsed
                 (SpeechJson.mk None (Some 25) (Some "Good rebuttal.")))
              "audio" PM Examples.motion None
              (AnalysisResult.mk "Transcription failed." 25 "Good rebuttal.")
              eq_refl) as (_ & _ & answer & Hreply & Hscore & _).
  injection Hreply as <-. exact Hscore.
Defined.

(** X4.  The outcome of recording a speech, against the render in which
    Record was clicked: [r] is the session of that render, [sp] its
    speaker.  [processAudio] with its call to [analyzeSpeakerAudio] fails
    exactly when no API key is set, the audio cannot be read, the request
    fails or the answer does not parse; it then only alerts and hands
    nothing to [onUpdate], so the store is as it was.  Otherwise it raises
    no alert and hands one session to [onUpdate], which the store takes in
    the place of the session of that id: the session [r] with the speaker
    completed, who has the transcription, score, feedback and audio of the
    evaluation and id, role, team, name and timer as in [r]; every other
    speaker and every other field are as in [r], whatever the store held
    when the answer came. *)
Theorem speech_evaluation_outcome (API_KEY : option string)
    (base64Audio : Outcome string) (reply : GeminiService.Reply SpeechJson.t)
    (sp : Speaker.t) (blob : Blob) (r : DebateSession.t) :
  reachable r -> In sp (speakers r) ->
  let analysis :=
    GeminiService.analyzeSpeakerAudio API_KEY base64Audio reply blob
      (Speaker.role sp) (topic r) (motionContext r) in
  let effects := evaluateSpeech API_KEY base64Audio reply sp blob r in
  (analysis = Rejected
   <-> GeminiService.has_api_key API_KEY = false
       \/ base64Audio = Rejected
       \/ reply = GeminiService.ApiError \/ reply = GeminiService.Malformed)
  /\ (analysis = Rejected ->
      alerts effects = true
      /\ (forall u, ~ In (OnUpdate u) effects)
      /\ forall st, run effects st = st)
  /\ (forall result, analysis = Resolved result ->
        alerts effects = false
        /\ exists u,
             effects = [OnUpdate u]
             /\ (forall st, run effects st = App.updateSession u st)
             /\ u = with_speakers (speakers u) r
             /\ forall i x, nth_error (speakers r) i = Some x ->
                  nth_error (speakers u) i
                  = Some (if String.eqb (Speaker.id x) (Speaker.id sp)
                          then Speaker.mk (Speaker.id sp) (Speaker.role sp)
                                 (Speaker.team sp) (Speaker.name sp) true
                                 (Some blob)
                                 (Some (AnalysisResult.transcription result))
                                 (Some (AnalysisResult.score result))
                                 (Some (AnalysisResult.feedback result))
                                 (Speaker.speechTimeLeft sp)
                                 (Speaker.isSpeechTimerRunning sp)
                          else x)).
Proof.
  intros Hr Hin analysis effects.
  pose proof (reachable_invariant r Hr) as Hinv.
  split; [apply analyzeSpeakerAudio_rejects |].
  subst effects. unfold evaluateSpeech. fold analysis.
  destruct analysis as [result |]; cbn.
  - split; [discriminate |]. intros result' [= <-].
    split; [reflexivity |]. eexists. conjuncts; try reflexivity.
    intros i x Hi. cbn. rewrite newSpeakers_nth_error, Hi. cbn.
    destruct (String.eqb_spec (Speaker.id x) (Speaker.id sp)) as [He |];
      [| reflexivity].
    assert (x = sp)
      by (apply (same_id_same_speaker r); eauto using nth_error_In).
    now subst x.
  - split; [| discriminate]. intros _. conjuncts; auto.
    intros u [H | []]. discriminate H.
Qed.

Lemma speech_evaluation_outcome_witness :
  evaluateSpeech (Some "key") (Resolved "UklGRg==")
    (GeminiService.Parsed
       (SpeechJson.mk (Some "Madam Speaker, ...") (Some 17) None))
    (initial_speaker "3" DPM OG) "audio" Examples.inDebate
  = [OnUpdate
       (with_speakers
          [initial_speaker "1" PM OG; initial_speaker "2" LO OO;
           Speaker.mk "3" DPM OG "" true (Some "audio")
             (Some "Madam Speaker, ...") (Some 17)
             (Some "No feedback generated.") 440 false;
           initial_speaker "4" DLO OO; initial_speaker "5" MG CG;
           initial_speaker "6" MO CO; initial_speaker "7" GW CG;
           initial_speaker "8" OW CO]
          Examples.inDebate)].
Proof.
  destruct (speech_evaluation_outcome (Some "key") (Resolved "UklGRg==")
              (GeminiService.Parsed
                 (SpeechJson.mk (Some "Madam Speaker, ...") (Some 17) None))
              (initial_speaker "3" DPM OG) "audio" Examples.inDebate
              inDebate_reachable) as (_ & _ & H).
  - vm_compute. tauto.
  - destruct (H _ eq_refl) as (_ & u & Heffects & _).
    rewrite Heffects. injection Heffects as <-. reflexivity.
Defined.

End Evaluation.

(** ** What holds over the life of a session *)

Section Life.

Import DebateSession DebateDashboard Lifecycle Wiring.

Lemma merge_evaluated (speaker sp : Speaker.t) (u : PartialSpeaker.t) :
  recorderUpdate speaker u -> evaluated sp -> evaluated (merge sp u).
Proof.
  unfold evaluated. intros Hu Hsp.
  destruct Hu; cbn; try assumption.
  conjuncts; discriminate.
Qed.

Lemma step_evaluated (s s' : DebateSession.t) :
  Forall evaluated (speakers s) -> step s s' ->
  Forall evaluated (speakers s').
Proof.
  intros Hall Hstep.
  destruct (step_speakers s s' Hstep) as [-> | (speaker & u & _ & Hu & ->)];
    [assumption |].
  apply newSpeakers_Forall; eauto using merge_evaluated.
Qed.

(** X5.  In every reached session, a speaker marked completed has a score,
    a transcription, a feedback and the recorded audio, and a speaker not
    marked completed has none of the four. *)
Theorem results_present_iff_completed (s : DebateSession.t)
    (sp : Speaker.t) :
  reachable s -> In sp (speakers s) ->
  (Speaker.isCompleted sp = true ->
   exists score transcription feedback audio,
     Speaker.score sp = Some score
     /\ Speaker.transcription sp = Some transcription
     /\ Speaker.feedback sp = Some feedback
     /\ Speaker.audioBlob sp = Some audio)
  /\ (Speaker.isCompleted sp = false ->
      Speaker.score sp = None /\ Speaker.transcription sp = None
      /\ Speaker.feedback sp = None /\ Speaker.audioBlob sp = None).
Proof.
  intros Hs Hin.
  assert (Hall : Forall evaluated (speakers s)).
  { clear sp Hin. induction Hs as [i title now | s s' _ IH Hstep];
      [| eauto using step_evaluated].
    repeat apply Forall_cons; try apply Forall_nil;
      unfold evaluated; cbn; auto. }
  rewrite Forall_forall in Hall. specialize (Hall sp Hin).
  unfold evaluated in Hall. split; intros Hc; rewrite Hc in Hall.
  - destruct Hall as (H1 & H2 & H3 & H4).
    destruct (Speaker.score sp), (Speaker.transcription sp),
      (Speaker.feedback sp), (Speaker.audioBlob sp); try congruence.
    eauto 10.
  - exact Hall.
Qed.

Lemma results_present_iff_completed_witness :
  exists score transcription feedback audio,
    Speaker.score (nth 4 (speakers Examples.oneAbsent) (initial_speaker "" PM OG))
    = Some score
    /\ Speaker.transcription
         (nth 4 (speakers Examples.oneAbsent) (initial_speaker "" PM OG))
       = Some transcription
    /\ Speaker.feedback
         (nth 4 (speakers Examples.oneAbsent) (initial_speaker "" PM OG))
       = Some feedback
    /\ Speaker.audioBlob
         (nth 4 (speakers Examples.oneAbsent) (initial_speaker "" PM OG))
       = Some audio.
Proof.
  apply (proj1 (results_present_iff_completed Examples.oneAbsent
                  (nth 4 (speakers Examples.oneAbsent) (initial_speaker "" PM OG))
                  oneAbsent_reachable
                  (or_intror (or_intror (or_intror (or_intror
                     (or_introl eq_refl))))))).
  reflexivity.
Defined.

End Life.

(** ** What a write keeps of its render *)

Section Progress.

Import DebateSession DebateDashboard Lifecycle Wiring.

Lemma merge_stays_completed (speaker sp : Speaker.t) (u : PartialSpeaker.t) :
  recorderUpdate speaker u -> Speaker.isCompleted sp = true ->
  Speaker.isCompleted (merge sp u) = true.
Proof. intros Hu Hsp. destruct Hu; cbn; auto. Qed.

Lemma completed_filter_grows (f : Speaker.t -> Speaker.t)
    (l : list Speaker.t) :
  (forall sp, Speaker.isCompleted sp = true ->
     Speaker.isCompleted (f sp) = true) ->
  (List.length (filter Speaker.isCompleted l)
   <= List.length (filter Speaker.isCompleted (map f l)))%nat.
Proof.
  intros Hf. induction l as [| sp l IH]; cbn; [lia |].
  destruct (Speaker.isCompleted sp) eqn:Hsp.
  - rewrite (Hf sp Hsp). cbn. lia.
  - destruct (Speaker.isCompleted (f sp)); cbn; lia.
Qed.

Lemma written_roster (r u : DebateSession.t) :
  reachable r -> Store.written r u -> List.length (speakers u) = 8%nat.
Proof.
  intros Hr Hw.
  pose proof (roster_ids r (reachable_invariant r Hr)) as Hids.
  apply (f_equal (@List.length string)) in Hids.
  rewrite length_map in Hids.
  destruct (written_speakers r u Hw) as [-> | (speaker & upd & _ & _ & ->)];
    [| rewrite newSpeakers_length]; exact Hids.
Qed.

Lemma written_id (r u : DebateSession.t) :
  Store.written r u -> id u = id r.
Proof. now intros []. Qed.

(** X6.  A write keeps the completions its render shows.  For every
    session [u] that the render of a reached session [r] hands to
    [onUpdate], a speaker completed in [r] is completed in [u], under the
    same id and at the same place; so [u] has at least as many completed
    speakers as [r], and at most 8.  The store takes [u] in the place of
    the session of that id: the comparison is with the render, and a
    completion that reached the store after the render of [r] is not in
    [u]. *)
Theorem write_keeps_completions (r u : DebateSession.t) :
  reachable r -> Store.writes r u ->
  (forall i sp, nth_error (speakers r) i = Some sp ->
     Speaker.isCompleted sp = true ->
     exists sp', nth_error (speakers u) i = Some sp'
                 /\ Speaker.id sp' = Speaker.id sp
                 /\ Speaker.isCompleted sp' = true)
  /\ completedCount r <= completedCount u <= 8
  /\ (forall st,
        App.sessions (App.updateSession u st)
        = map (fun s => if String.eqb (id s) (id r) then u else s)
            (App.sessions st)).
Proof.
  intros Hr Hw. apply writes_written in Hw.
  pose proof (written_roster r u Hr Hw) as Hlen.
  assert (Hmax : completedCount u <= 8).
  { unfold completedCount.
    pose proof (filter_length_le Speaker.isCompleted (speakers u)). lia. }
  split; [| split].
  - destruct (written_speakers r u Hw) as [-> | (speaker & upd & _ & Hu & ->)];
      [eauto |].
    intros i sp Hi Hc. rewrite newSpeakers_nth_error, Hi. cbn.
    destruct (String.eqb (Speaker.id sp) (Speaker.id speaker)); [| eauto].
    eexists. conjuncts; [reflexivity | | eauto using merge_stays_completed].
    pose proof (merge_identity sp upd (recorderUpdate_keepsIdentity _ _ Hu))
      as Hid.
    unfold identity in Hid. congruence.
  - split; [| exact Hmax]. unfold completedCount.
    destruct (written_speakers r u Hw) as [-> | (speaker & upd & _ & Hu & ->)];
      [lia |].
    apply inj_le. unfold newSpeakers. apply completed_filter_grows.
    intros sp Hc. destruct (String.eqb (Speaker.id sp) (Speaker.id speaker));
      eauto using merge_stays_completed.
  - intros st. cbn. now rewrite (written_id r u Hw).
Qed.

Lemma write_keeps_completions_witness :
  completedCount Examples.inDebate <= completedCount Examples.oneAbsent <= 8.
Proof.
  apply (write_keeps_completions Examples.inDebate Examples.oneAbsent
           inDebate_reachable).
  apply writes_written. unfold Examples.oneAbsent, Examples.complete.
  apply Store.written_speaker
    with (speaker := nth 4 (speakers Examples.inDebate)
                       (initial_speaker "" PM OG));
    [reflexivity | vm_compute; tauto | constructor].
Defined.

(** X7.  Against its render a write never goes back.  Every session the
    render of a session hands to [onUpdate] is in the phase of the render
    or in a later one of setup, prep, debate, results (a failed finish
    writes ['debate'], where it started); none is in phase ['setup'], and
    the render of a session in phase ['results'] writes nothing.  A write
    that changes the phase goes from ['setup'] to ['prep'] or ['debate'],
    from ['prep'] to ['debate'], or from ['debate'] to ['results'].  The
    comparison is with the render: a write of an older render can put the
    stored session back, to the phase that render was in or to one that
    render leads to. *)
Theorem write_never_goes_back (r u : DebateSession.t) :
  Store.writes r u ->
  phaseOrder (phase r) <= phaseOrder (phase u)
  /\ phase u <> setup
  /\ phase r <> results
  /\ (phase u = phase r
      \/ (phase r = setup /\ (phase u = prep \/ phase u = debate))
      \/ (phase r = prep /\ phase u = debate)
      \/ (phase r = debate /\ phase u = results)).
Proof.
  intros Hw. apply writes_written in Hw.
  destruct Hw as [Hph Hpos | motionInput skip context Hph Hblank | Hph
                  | speaker upd Hph Hsp Hu | Hph | rankings adjudication Hph
                  | Hph]; cbn; rewrite Hph; cbn;
    try destruct skip; cbn; conjuncts; try lia; try discriminate; auto 6.
Qed.

Lemma write_never_goes_back_witness :
  phaseOrder (phase Examples.fresh) <= phaseOrder (phase Examples.inDebate)
  /\ phase Examples.fresh = setup.
Proof.
  split; [| reflexivity].
  apply (write_never_goes_back Examples.fresh Examples.inDebate).
  apply writes_written. now apply Store.written_start.
Defined.

(** X8.  What a write takes from its render.  Every session the render of
    a session hands to [onUpdate] has the id, the creation time and
    [isPrepTime] of the render.  Written from a render past ['setup'], it
    has the topic, the title and the motion context of the render as well;
    written from a render in ['setup'], it has the motion that was entered
    there: a topic that is not blank, the title made from it, and a
    context.  The comparison is with the render: a start that was pending
    in an older render of the setup view puts its own motion on the stored
    session when it lands. *)
Theorem write_keeps_identity_and_motion (r u : DebateSession.t) :
  Store.writes r u ->
  id u = id r /\ createdAt u = createdAt r /\ isPrepTime u = isPrepTime r
  /\ (phase r <> setup ->
      topic u = topic r /\ title u = title r
      /\ motionContext u = motionContext r)
  /\ (phase r = setup -> hasMotion u).
Proof.
  intros Hw. apply writes_written in Hw.
  destruct Hw as [Hph Hpos | motionInput skip context Hph Hblank | Hph
                  | speaker upd Hph Hsp Hu | Hph | rankings adjudication Hph
                  | Hph]; cbn; conjuncts; auto; try congruence.
  intros _. exists context. cbn. auto.
Qed.

Lemma write_keeps_identity_and_motion_witness :
  topic (stored Examples.inPrep (handleSkipPrep Examples.inPrep))
  = Examples.motion.
Proof.
  destruct (write_keeps_identity_and_motion Examples.inPrep
              (stored Examples.inPrep (handleSkipPrep Examples.inPrep)))
    as (_ & _ & _ & H & _).
  - apply writes_written. now apply Store.written_skip.
  - destruct H as (Htopic & _); [discriminate |].
    rewrite Htopic. reflexivity.
Defined.

(** X9.  A session has its motion exactly from the moment it leaves
    ['setup'].  In every reached session in phase ['setup'] the topic is
    empty and there is no motion context; in every other phase there is a
    motion context, the topic is not blank, and the title is the topic cut
    to 30 characters. *)
Theorem motion_attached_past_setup (s : DebateSession.t) :
  reachable s ->
  (phase s = setup -> topic s = "" /\ motionContext s = None)
  /\ (phase s <> setup -> hasMotion s).
Proof.
  induction 1 as [i title now | s s' Hs (IHsetup & IHpast) Hstep].
  { cbn. split; [auto | congruence]. }
  destruct Hstep as
    [e He | motionInput isOnline skip analysis Hph | Hph
     | speaker i u Hph Hin Hcall | confirmAnswer ranking Hph].
  - apply prepTimerEffect_inv in He as (Hph & _ & ->). cbn.
    split; [congruence | auto].
  - destruct (IHsetup Hph) as (Htopic & Hctx).
    unfold handleAnalyzeAndStart.
    destruct (trim_is_empty motionInput) eqn:Hblank; cbn; [tauto |].
    destruct isOnline; cbn; [| tauto].
    destruct analysis as [context |]; cbn; [| tauto].
    split; [destruct skip; discriminate |].
    intros _. exists context. cbn. auto.
  - cbn. split; [discriminate |]. intros _. apply IHpast. congruence.
  - cbn. split; [congruence |]. intros _.
    destruct IHpast as (context & H1 & H2 & H3); [congruence |].
    exists context. auto.
  - assert (Hpast : hasMotion s) by (apply IHpast; congruence).
    assert (Hcarry : forall x, topic x = topic s -> title x = title s ->
                       motionContext x = motionContext s -> hasMotion x).
    { intros x Ht Hti Hc. destruct Hpast as (context & H1 & H2 & H3).
      exists context. rewrite Ht, Hti, Hc. auto. }
    unfold handleFinishDebate.
    destruct (_ && _); cbn; [split; [congruence | auto] |].
    destruct ranking as [result |];
      [destruct (RankingResult.rankings result) |]; cbn;
      (split; [discriminate | intros _; now apply Hcarry]).
Qed.

Lemma motion_attached_past_setup_witness :
  topic Examples.fresh = "" /\ motionContext Examples.fresh = None.
Proof.
  apply (proj1 (motion_attached_past_setup Examples.fresh fresh_reachable)).
  reflexivity.
Defined.

End Progress.

(** ** Starting and finishing *)

Section StartFinish.

Import DebateSession DebateDashboard Lifecycle Wiring.

Lemma length_append (a b : string) :
  String.length (a ++ b) = (String.length a + String.length b)%nat.
Proof. induction a as [| c a IH]; cbn; [reflexivity | now rewrite IH]. Qed.

Lemma length_substring_0 (n : nat) :
  forall s : string,
    (n <= String.length s)%nat ->
    String.length (String.substring 0 n s) = n.
Proof.
  induction n as [| n IH]; intros [| c s] Hn; cbn in *; try reflexivity;
    try lia.
  rewrite IH; [reflexivity | lia].
Qed.

Lemma prefix_substring_0 (n : nat) :
  forall s : string, String.prefix (String.substring 0 n s) s = true.
Proof.
  induction n as [| n IH]; intros [| c s]; cbn; try reflexivity.
  destruct (ascii_dec c c) as [_ | Hne]; [apply IH | now destruct Hne].
Qed.

(** X10.  The title made from a motion.  A motion of at most 30 characters
    is its own title; a longer one gets its first 30 characters followed by
    three dots, 33 characters in all.  So a title never exceeds 33
    characters, and it is empty only for the empty motion. *)
Theorem title_is_motion_cut_to_30 (motionInput : string) :
  ((String.length motionInput <= 30)%nat -> title_of motionInput = motionInput)
  /\ ((30 < String.length motionInput)%nat ->
      title_of motionInput = String.substring 0 30 motionInput ++ "..."
      /\ String.prefix (String.substring 0 30 motionInput) motionInput = true
      /\ String.length (title_of motionInput) = 33%nat)
  /\ (String.length (title_of motionInput) <= 33)%nat
  /\ (title_of motionInput = "" <-> motionInput = "").
Proof.
  unfold title_of.
  destruct (Nat.ltb_spec 30 (String.length motionInput)) as [Hlong | Hshort].
  - assert (Hlen : String.length (String.substring 0 30 motionInput ++ "...")
                   = 33%nat).
    { rewrite length_append, length_substring_0 by lia. reflexivity. }
    conjuncts.
    + lia.
    + intros _. conjuncts; auto using prefix_substring_0.
    + lia.
    + split; intros H.
      * rewrite H in Hlen. discriminate Hlen.
      * rewrite H in Hlong. cbn in Hlong. lia.
  - conjuncts; auto; try lia. reflexivity.
Qed.

(** A start without a motion or without a network does nothing.  When
    the motion is blank (empty or white space only) or the browser is
    offline, [handleAnalyzeAndStart] writes nothing, whatever the API key
    and whatever the analysis would answer: the session is unchanged.  A
    blank motion is dropped silently, also offline; a motion that is not
    blank, offline, raises the alert. *)
Theorem start_needs_motion_and_network (API_KEY : option string)
    (reply : GeminiService.Reply MotionJson.t) (motionInput : string)
    (isOnline skipPrepTime : bool) (s : DebateSession.t) :
  trim_is_empty motionInput = true \/ isOnline = false ->
  let effects :=
    analyzeAndStart API_KEY reply motionInput isOnline skipPrepTime s in
  stored s effects = s
  /\ (forall u, ~ In (OnUpdate u) effects)
  /\ alerts effects = negb (trim_is_empty motionInput).
Proof.
  intros Hguard. unfold analyzeAndStart, handleAnalyzeAndStart.
  destruct (trim_is_empty motionInput); cbn.
  - conjuncts; auto.
  - destruct Hguard as [Hblank | ->]; [discriminate |]. cbn.
    conjuncts; auto. intros u [H | []]. discriminate H.
Qed.

Lemma start_needs_motion_and_network_witness :
  stored Examples.fresh
    (analyzeAndStart (Some "key")
       (GeminiService.Parsed (MotionJson.mk (Some "English") None None))
       "  " true false Examples.fresh)
  = Examples.fresh.
Proof.
  apply (start_needs_motion_and_network (Some "key")
           (GeminiService.Parsed (MotionJson.mk (Some "English") None None))
           "  " true false Examples.fresh (or_introl eq_refl)).
Defined.

Lemma completed_all (l : list Speaker.t) :
  List.length (filter Speaker.isCompleted l) = List.length l
  <-> forall sp, In sp l -> Speaker.isCompleted sp = true.
Proof.
  induction l as [| x l IH]; cbn; [tauto |].
  pose proof (filter_length_le Speaker.isCompleted l) as Hle.
  destruct (Speaker.isCompleted x) eqn:Hx; cbn.
  - split.
    + intros H sp [<- | Hin]; [assumption |]. apply IH; [lia | assumption].
    + intros H. f_equal. apply IH. auto.
  - split; [lia |]. intros H. specialize (H x (or_introl eq_refl)). congruence.
Qed.

(** X12.  Finishing early asks first.  In a reached session the count of
    completed speakers is 8 exactly when every speaker is completed.  With
    fewer than 8 completed, [handleFinishDebate] does nothing at all when
    the user declines the confirmation; with all 8 completed the
    confirmation is not asked and the answer plays no part. *)
Theorem finish_asks_before_partial_results (ranking : Outcome RankingResult.t)
    (s : DebateSession.t) :
  reachable s ->
  0 <= completedCount s <= 8
  /\ (completedCount s = 8
      <-> forall sp, In sp (speakers s) -> Speaker.isCompleted sp = true)
  /\ (completedCount s < 8 -> handleFinishDebate false ranking s = [])
  /\ (completedCount s = 8 ->
      handleFinishDebate false ranking s = handleFinishDebate true ranking s).
Proof.
  intros Hs.
  assert (Hlen : List.length (speakers s) = 8%nat).
  { pose proof (roster_ids s (reachable_invariant s Hs)) as Hids.
    apply (f_equal (@List.length string)) in Hids.
    now rewrite length_map in Hids. }
  pose proof (filter_length_le Speaker.isCompleted (speakers s)) as Hle.
  pose proof (completed_all (speakers s)) as Hall.
  unfold completedCount, handleFinishDebate. conjuncts; try lia.
  - split; intros H; [apply Hall; lia | apply Hall in H; lia].
  - intros Hfew. apply Z.ltb_lt in Hfew. now rewrite Hfew.
  - intros Hfull.
    assert (Hnot : Z.ltb (Z.of_nat (List.length
                            (filter Speaker.isCompleted (speakers s)))) 8
                   = false) by (apply Z.ltb_ge; lia).
    now rewrite Hnot.
Qed.

Lemma finish_asks_before_partial_results_witness :
  handleFinishDebate false
    (Resolved (RankingResult.mk (Some Examples.rankList) (Some "RFD")))
    Examples.oneAbsent
  = [].
Proof.
  apply (finish_asks_before_partial_results
           (Resolved (RankingResult.mk (Some Examples.rankList) (Some "RFD")))
           Examples.oneAbsent oneAbsent_reachable).
  reflexivity.
Defined.

(** X13.  When the finish succeeds.  For a reached session in phase
    ['debate'] whose user confirms, [handleFinishDebate] with its call to
    [generateFinalRanking] ends in phase ['results'] exactly when an API key
    is set and the answer parses and carries a rank list; the session then
    holds rankings, is no longer adjudicating and has the speakers, topic
    and context it had.  In every other case the session ends as it was. *)
Theorem finish_reaches_results_iff (API_KEY : option string)
    (reply : GeminiService.Reply RankingResult.t) (s : DebateSession.t) :
  reachable s -> phase s = debate ->
  let s' := stored s (finishDebate API_KEY reply true s) in
  (phase s' = results
   <-> GeminiService.has_api_key API_KEY = true
       /\ exists result rankings,
            reply = GeminiService.Parsed result
            /\ RankingResult.rankings result = Some rankings)
  /\ (phase s' = results ->
      isAdjudicating s' = false /\ finalRankings s' <> None
      /\ speakers s' = speakers s /\ topic s' = topic s
      /\ motionContext s' = motionContext s)
  /\ (phase s' <> results -> s' = s).
Proof.
  intros Hs Hph.
  destruct (reachable_invariant s Hs) as [_ _ _ _ Hadj _ _].
  assert (Hsame : with_phase debate (with_isAdjudicating false s) = s).
  { destruct s; cbn in *; subst; reflexivity. }
  unfold finishDebate, handleFinishDebate, GeminiService.generateFinalRanking.
  rewrite andb_false_r.
  assert (Hback : forall P : Prop,
            ~ P ->
            (phase s = results <-> P)
            /\ (phase s = results ->
                isAdjudicating s = false /\ finalRankings s <> None
                /\ speakers s = speakers s /\ topic s = topic s
                /\ motionContext s = motionContext s)
            /\ (phase s <> results -> s = s)).
  { intros P HP. rewrite Hph. conjuncts; auto; try discriminate.
    split; [discriminate | contradiction]. }
  destruct (GeminiService.has_api_key API_KEY); cbn [negb stored].
  2: { rewrite Hsame. apply Hback. intros (H & _). discriminate H. }
  destruct reply as [| | result]; cbn [stored].
  1, 2: rewrite Hsame; apply Hback;
    intros (_ & r & l & H & _); discriminate H.
  destruct (RankingResult.rankings result) as [rankings |] eqn:Hr;
    cbn [stored].
  - cbn. conjuncts; auto; try congruence.
    + split; [intros _; split; eauto | reflexivity].
    + intros _. conjuncts; auto. discriminate.
  - rewrite Hsame. apply Hback.
    intros (_ & r & l & [= <-] & H). congruence.
Qed.

Lemma finish_reaches_results_iff_witness :
  phase
    (stored Examples.allScored
       (finishDebate (Some "key")
          (GeminiService.Parsed
             (RankingResult.mk (Some Examples.rankList) (Some "RFD")))
          true Examples.allScored))
  = results.
Proof.
  apply (proj1 (finish_reaches_results_iff (Some "key")
                  (GeminiService.Parsed
                     (RankingResult.mk (Some Examples.rankList) (Some "RFD")))
                  Examples.allScored allScored_reachable eq_refl)).
  split; [reflexivity |]. eexists. eexists. split; reflexivity.
Defined.

End StartFinish.

(** ** Sorting in the views *)

Section Sorting.

Import View.
Local Open Scope Z_scope.

Variable A : Type.
Variable compare : A -> A -> Z.

Lemma insertSorted_Permutation (x : A) (l : list A) :
  Permutation (insertSorted compare x l) (x :: l).
Proof.
  induction l as [| y l IH]; cbn; [reflexivity |].
  destruct (compare x y <=? 0); [reflexivity |].
  rewrite IH. apply perm_swap.
Qed.

Lemma sort_Permutation (l : list A) : Permutation (sort compare l) l.
Proof.
  induction l as [| x l IH]; cbn; [reflexivity |].
  rewrite insertSorted_Permutation. now apply perm_skip.
Qed.

(** The comparator orders by a key: it is the difference of the keys. *)
Variable key : A -> Z.
Hypothesis compare_key : forall a b, compare a b = key a - key b.

Lemma insertSorted_sorted (x : A) (l : list A) :
  StronglySorted (fun a b => key a <= key b) l ->
  StronglySorted (fun a b => key a <= key b) (insertSorted compare x l).
Proof.
  induction 1 as [| y l Hl IH Hy]; cbn.
  - repeat constructor.
  - rewrite compare_key.
    destruct (Z.leb_spec (key x - key y) 0) as [Hle | Hgt].
    + constructor; [now constructor |].
      constructor; [lia |].
      eapply Forall_impl; [| exact Hy]. cbn. intros z Hz. lia.
    + constructor; [exact IH |].
      rewrite (insertSorted_Permutation x l).
      constructor; [lia | exact Hy].
Qed.

Lemma sort_sorted (l : list A) :
  StronglySorted (fun a b => key a <= key b) (sort compare l).
Proof.
  induction l as [| x l IH]; cbn; [constructor |].
  now apply insertSorted_sorted.
Qed.

(** Stability: the elements of one key keep their order. *)
Lemma insertSorted_stable (k : Z) (x : A) (l : list A) :
  filter (fun a => key a =? k) (insertSorted compare x l)
  = filter (fun a => key a =? k) (x :: l).
Proof.
  induction l as [| y l IH]; [reflexivity |].
  cbn [insertSorted]. rewrite compare_key.
  destruct (Z.leb_spec (key x - key y) 0) as [Hle | Hgt]; [reflexivity |].
  cbn [filter] in *. rewrite IH.
  destruct (Z.eqb_spec (key x) k), (Z.eqb_spec (key y) k); try reflexivity.
  lia.
Qed.

Lemma sort_stable (k : Z) (l : list A) :
  filter (fun a => key a =? k) (sort compare l)
  = filter (fun a => key a =? k) l.
Proof.
  induction l as [| x l IH]; [reflexivity |].
  cbn [sort fold_right]. rewrite insertSorted_stable.
  cbn [filter]. fold (sort compare l). now rewrite IH.
Qed.

End Sorting.

Section Views.

Import View.
Local Open Scope Z_scope.

(** X14.  The sidebar lists every session once.  Whatever the sort order
    and whatever [localeCompare] answers, the sorted list is a permutation
    of the sessions: none is lost, none is shown twice.  Sorted by date it
    runs from the newest to the oldest, and sessions of the same creation
    time keep the order they have in the collection. *)
Theorem sidebar_lists_every_session (localeCompare : string -> string -> Z)
    (st : App.State) :
  Permutation (sortedSessions localeCompare st) (App.sessions st)
  /\ List.length (sortedSessions localeCompare st)
     = List.length (App.sessions st)
  /\ (App.sortOrder st = App.date ->
      StronglySorted
        (fun a b => DebateSession.createdAt b <= DebateSession.createdAt a)
        (sortedSessions localeCompare st)
      /\ forall time,
           filter (fun s => DebateSession.createdAt s =? time)
                  (sortedSessions localeCompare st)
           = filter (fun s => DebateSession.createdAt s =? time)
                    (App.sessions st)).
Proof.
  unfold sortedSessions. conjuncts.
  - apply sort_Permutation.
  - apply Permutation_length, sort_Permutation.
  - intros ->. split.
    + pose proof (sort_sorted DebateSession.t
                    (fun a b => DebateSession.createdAt b
                                - DebateSession.createdAt a)
                    (fun s => - DebateSession.createdAt s)
                    (fun a b => ltac:(cbv beta; lia)) (App.sessions st)) as H.
      induction H as [| a l Hl IH Ha]; constructor; auto.
      eapply Forall_impl; [| exact Ha]. cbn. intros b Hb. lia.
    + intros time.
      pose proof (sort_stable DebateSession.t
                    (fun a b => DebateSession.createdAt b
                                - DebateSession.createdAt a)
                    (fun s => - DebateSession.createdAt s)
                    (fun a b => ltac:(cbv beta; lia)) (- time) (App.sessions st)) as H.
      assert (Hext : forall l,
                filter (fun s => DebateSession.createdAt s =? time) l
                = filter (fun s => - DebateSession.createdAt s =? - time) l).
      { apply filter_ext. intros s.
        destruct (Z.eqb_spec (DebateSession.createdAt s) time),
          (Z.eqb_spec (- DebateSession.createdAt s) (- time)); auto; lia. }
      rewrite !Hext. exact H.
Qed.

(** X15.  The order of the results view.  The speaker table holds every
    speaker once, from the highest [score || 0] to the lowest, so a speaker
    without a score is never listed above one with a positive score, and
    speakers of equal score keep the order of the roster.  The team cards
    hold every TeamResult once, in ascending rank, equal ranks in the order
    stored. *)
Theorem results_view_order (session : DebateSession.t)
    (finalRankings : list TeamResult.t) :
  Permutation (sortedSpeakers session) (DebateSession.speakers session)
  /\ StronglySorted
       (fun a b => num_or_zero (Speaker.score b) <= num_or_zero (Speaker.score a))
       (sortedSpeakers session)
  /\ (forall points,
        filter (fun sp => num_or_zero (Speaker.score sp) =? points)
               (sortedSpeakers session)
        = filter (fun sp => num_or_zero (Speaker.score sp) =? points)
                 (DebateSession.speakers session))
  /\ Permutation (rankingsShown finalRankings) finalRankings
  /\ StronglySorted (fun a b => TeamResult.rank a <= TeamResult.rank b)
       (rankingsShown finalRankings)
  /\ (forall rank,
        filter (fun r => TeamResult.rank r =? rank) (rankingsShown finalRankings)
        = filter (fun r => TeamResult.rank r =? rank) finalRankings).
Proof.
  unfold sortedSpeakers, rankingsShown. conjuncts.
  - apply sort_Permutation.
  - pose proof (sort_sorted Speaker.t
                  (fun a b => num_or_zero (Speaker.score b)
                              - num_or_zero (Speaker.score a))
                  (fun sp => - num_or_zero (Speaker.score sp))
                  (fun a b => ltac:(cbv beta; lia)) (DebateSession.speakers session)) as H.
    induction H as [| a l Hl IH Ha]; constructor; auto.
    eapply Forall_impl; [| exact Ha]. cbn. intros b Hb. lia.
  - intros points.
    pose proof (sort_stable Speaker.t
                  (fun a b => num_or_zero (Speaker.score b)
                              - num_or_zero (Speaker.score a))
                  (fun sp => - num_or_zero (Speaker.score sp))
                  (fun a b => ltac:(cbv beta; lia)) (- points)
                  (DebateSession.speakers session)) as H.
    assert (Hext : forall l,
              filter (fun sp => num_or_zero (Speaker.score sp) =? points) l
              = filter (fun sp => - num_or_zero (Speaker.score sp) =? - points) l).
    { apply filter_ext. intros sp.
      destruct (Z.eqb_spec (num_or_zero (Speaker.score sp)) points),
        (Z.eqb_spec (- num_or_zero (Speaker.score sp)) (- points)); auto; lia. }
    rewrite !Hext. exact H.
  - apply sort_Permutation.
  - apply (sort_sorted TeamResult.t _ TeamResult.rank). reflexivity.
  - intros rank. apply (sort_stable TeamResult.t _ TeamResult.rank). reflexivity.
Qed.

End Views.

(** ** The clock face *)

Section Clock.

Import View.
Local Open Scope Z_scope.

Lemma show_inj (a b : Z) : App.show a = App.show b -> a = b.
Proof.
  unfold App.show. intros H. apply DecimalZ.to_int_inj.
  assert (Hparse : forall n,
            NilZero.int_of_string (NilZero.string_of_int (Z.to_int n))
            = Some (Z.to_int n)).
  { intros n. apply NilZero.isi; destruct n; cbn; try discriminate;
      intros [= Hnil]; now apply DecimalPos.Unsigned.to_uint_nonnil in Hnil. }
  pose proof (Hparse a) as Ha. rewrite H, Hparse in Ha. congruence.
Qed.

Lemma append_inj (a b c d : string) :
  String.length c = String.length d -> (a ++ c)%string = (b ++ d)%string ->
  a = b /\ c = d.
Proof.
  revert b. induction a as [| x a IH]; intros [| y b] Hlen H; cbn in H.
  - auto.
  - apply (f_equal String.length) in H. cbn in H.
    rewrite length_append in H. lia.
  - apply (f_equal String.length) in H. cbn in H.
    rewrite length_append in H. lia.
  - injection H as -> H. destruct (IH b Hlen H) as (-> & ->). auto.
Qed.

(** A property checked on each of the first [n] numbers holds of them all. *)
Lemma checked_below (P : Z -> bool) (n : nat) :
  forallb P (map Z.of_nat (seq 0 n)) = true ->
  forall r, 0 <= r < Z.of_nat n -> P r = true.
Proof.
  intros Hall r Hr. rewrite forallb_forall in Hall. apply Hall.
  apply in_map_iff. exists (Z.to_nat r). split; [lia |].
  apply in_seq. lia.
Qed.

Lemma seconds_have_two_digits (r : Z) :
  0 <= r < 60 -> String.length (padStart 2 "0" (App.show r)) = 2%nat.
Proof.
  intros Hr.
  apply (checked_below
           (fun r => Nat.eqb (String.length (padStart 2 "0" (App.show r))) 2)
           60) in Hr; [now apply Nat.eqb_eq in Hr | now vm_compute].
Qed.

Lemma seconds_inj (r r' : Z) :
  0 <= r < 60 -> 0 <= r' < 60 ->
  padStart 2 "0" (App.show r) = padStart 2 "0" (App.show r') -> r = r'.
Proof.
  intros Hr Hr' Heq.
  apply (checked_below
           (fun r => forallb
                       (fun r' => implb (String.eqb (padStart 2 "0" (App.show r))
                                           (padStart 2 "0" (App.show r')))
                                    (r =? r'))
                       (map Z.of_nat (seq 0 60)))
           60) in Hr; [| now vm_compute].
  rewrite forallb_forall in Hr.
  assert (Hin : In r' (map Z.of_nat (seq 0 60))).
  { apply in_map_iff. exists (Z.to_nat r'). split; [lia |]. apply in_seq. lia. }
  specialize (Hr r' Hin). apply String.eqb_eq in Heq. rewrite Heq in Hr.
  now apply Z.eqb_eq in Hr.
Qed.

(** X16.  The clock face.  For a time that is not negative, [formatTime]
    shows the minutes, a colon and the seconds of the minute on exactly two
    digits; two different times never show the same text; and the text has
    4 characters below ten minutes and 5 from ten minutes up to a hundred,
    which covers both timers. *)
Theorem formatTime_is_minutes_and_two_digits (seconds : Z) :
  0 <= seconds ->
  (exists digits,
     formatTime seconds
     = (App.show (seconds / 60) ++ ":" ++ digits)%string
     /\ String.length digits = 2%nat
     /\ digits = padStart 2 "0" (App.show (seconds mod 60)))
  /\ (forall other, 0 <= other ->
        formatTime seconds = formatTime other -> seconds = other)
  /\ (seconds < 600 -> String.length (formatTime seconds) = 4%nat)
  /\ (600 <= seconds < 6000 -> String.length (formatTime seconds) = 5%nat).
Proof.
  intros Hpos.
  assert (Hrem : forall t, 0 <= t ->
            Z.rem t 60 = t mod 60 /\ 0 <= Z.rem t 60 < 60).
  { intros t Ht. rewrite Z.rem_mod_nonneg by lia.
    split; [reflexivity | apply Z.mod_pos_bound; lia]. }
  destruct (Hrem seconds Hpos) as (Hmod & Hbound).
  assert (Hlen : String.length (formatTime seconds)
                 = (String.length (App.show (seconds / 60)) + 3)%nat).
  { unfold formatTime. rewrite !length_append.
    rewrite seconds_have_two_digits by exact Hbound. reflexivity. }
  conjuncts.
  - exists (padStart 2 "0" (App.show (Z.rem seconds 60))).
    conjuncts; [reflexivity | now apply seconds_have_two_digits |
                now rewrite Hmod].
  - intros other Hother Heq.
    destruct (Hrem other Hother) as (Hmod' & Hbound').
    unfold formatTime in Heq.
    apply append_inj in Heq as (Hmin & Hsec).
    + apply show_inj in Hmin. injection Hsec as Hsec.
      apply seconds_inj in Hsec; try assumption.
      rewrite Hmod, Hmod' in Hsec.
      rewrite (Z.div_mod seconds 60), (Z.div_mod other 60) by lia. lia.
    + now rewrite !length_append, !seconds_have_two_digits.
  - intros Hshort. rewrite Hlen.
    assert (Hmin : 0 <= seconds / 60 < 10)
      by (split; [apply Z.div_pos; lia | apply Z.div_lt_upper_bound; lia]).
    apply (checked_below
             (fun m => Nat.eqb (String.length (App.show m)) 1) 10) in Hmin;
      [| now vm_compute].
    apply Nat.eqb_eq in Hmin. now rewrite Hmin.
  - intros Hlong. rewrite Hlen.
    assert (Hmin : 0 <= seconds / 60 - 10 < 90).
    { assert (10 <= seconds / 60) by (apply Z.div_le_lower_bound; lia).
      assert (seconds / 60 < 100) by (apply Z.div_lt_upper_bound; lia).
      lia. }
    apply (checked_below
             (fun m => Nat.eqb (String.length (App.show (m + 10))) 2) 90)
      in Hmin; [| now vm_compute].
    apply Nat.eqb_eq in Hmin.
    replace (seconds / 60 - 10 + 10) with (seconds / 60) in Hmin by lia.
    now rewrite Hmin.
Qed.

Lemma formatTime_is_minutes_and_two_digits_witness :
  String.length (formatTime SPEECH_TIME_SECONDS) = 4%nat
  /\ formatTime SPEECH_TIME_SECONDS = "7:20"%string
  /\ formatTime PREP_TIME_SECONDS = "15:00"%string
  /\ formatTime 59 = "0:59"%string.
Proof.
  split; [| repeat split].
  apply (formatTime_is_minutes_and_two_digits SPEECH_TIME_SECONDS);
    vm_compute; congruence.
Defined.

End Clock.

(** ** The active session *)

Section Active.

Import App Collection View.

Lemma find_by_id (i : string) (l : list DebateSession.t) :
  In i (map DebateSession.id l) ->
  exists s, find (fun s => String.eqb (DebateSession.id s) i) l = Some s.
Proof.
  induction l as [| x l IH]; cbn; [contradiction |].
  intros [<- | Hin].
  - rewrite String.eqb_refl. eauto.
  - destruct (String.eqb (DebateSession.id x) i); eauto.
Qed.

Lemma find_new (i : string) (l : list DebateSession.t) (n : DebateSession.t) :
  ~ In i (map DebateSession.id l) -> DebateSession.id n = i ->
  find (fun s => String.eqb (DebateSession.id s) i) (l ++ [n])%list = Some n.
Proof.
  intros Hout Hn. induction l as [| x l IH]; cbn in *.
  - now rewrite Hn, String.eqb_refl.
  - destruct (String.eqb_spec (DebateSession.id x) i) as [He | Hne];
      [exfalso; auto | apply IH; auto].
Qed.

(** X17.  While no two sessions share an id and the active id is in use,
    there is an active session to show: the lookup finds a session of the
    collection, the only one of the active id, so the placeholder for a
    missing session is not rendered.  [createNewSession] with a reading of
    the clock that names no session yet keeps it so, and the session then
    found is the new one: named after the first reading of the clock, with
    the second reading as its creation time, fresh, in phase ['setup'],
    with the initial roster, appended after the others.  [updateSession],
    [deleteSession], the selection of a session and the sort button keep
    it so as well. *)
Theorem active_session_is_found (st : State) :
  invariant st ->
  (exists s,
     activeSession st = Some s /\ In s (sessions st)
     /\ DebateSession.id s = activeSessionId st
     /\ forall x, In x (sessions st) ->
          DebateSession.id x = activeSessionId st -> x = s)
  /\ (forall idClock createdClock,
        ~ In ("session-" ++ show idClock) (ids st) ->
        let created :=
          freshSession ("session-" ++ show idClock)
            ("New Debate " ++ show (Z.of_nat (List.length (sessions st)) + 1))
            createdClock in
        sessions (createNewSession idClock createdClock st)
        = (sessions st ++ [created])%list
        /\ activeSession (createNewSession idClock createdClock st)
           = Some created
        /\ DebateSession.createdAt created = createdClock
        /\ DebateSession.phase created = setup
        /\ DebateSession.speakers created = INITIAL_SPEAKERS
        /\ invariant (createNewSession idClock createdClock st))
  /\ (forall updated, invariant (updateSession updated st))
  /\ (forall id, invariant (fst (deleteSession id st)))
  /\ (forall s, In s (sessions st) -> invariant (selectSession s st))
  /\ invariant (toggleSortOrder st).
Proof.
  intros Hinv. pose proof Hinv as [_ Hnd Hact].
  conjuncts.
  - destruct (find_by_id _ _ Hact) as (s & Hfind).
    exists s. unfold activeSession. rewrite Hfind.
    apply find_some in Hfind as (Hin & Hid). apply String.eqb_eq in Hid.
    conjuncts; auto.
    intros x Hx Hxid. eapply NoDup_map_same; eauto. congruence.
  - intros idClock createdClock Hfresh. cbn.
    conjuncts; auto using createNewSession_invariant.
    unfold activeSession. cbn. now apply find_new.
  - intros updated.
    apply (collection_invariant_step st); [assumption | apply step_update |].
    now rewrite updateSession_ids.
  - intros id. now apply deleteSession_invariant.
  - intros s Hs.
    apply (collection_invariant_step st);
      [assumption | now apply step_select | assumption].
  - apply (collection_invariant_step st);
      [assumption | apply step_sort | assumption].
Qed.

Lemma active_session_is_found_witness :
  activeSession (createNewSession 1 2 (initialState 0))
  = Some (freshSession "session-1" "New Debate 2" 2).
Proof.
  destruct (active_session_is_found (initialState 0) (invariant_initial 0))
    as (_ & H & _).
  destruct (H 1 2) as (_ & Hactive & _).
  - vm_compute. intros [E | []]. discriminate E.
  - rewrite Hactive. reflexivity.
Defined.

End Active.

(** ** The motion context *)

Section Context.

(** X18.  What a motion analysis returns.  When [analyzeMotionContext]
    resolves, the detected language and the background text are never
    empty: an absent or empty field gets its default text.  The criteria
    are those of the answer as they came, whatever their number, and none
    when the answer has no list; a failed request and an answer that does
    not parse give the fallback context, with its single criterion. *)
Theorem motion_context_defaults (API_KEY : option string)
    (reply : GeminiService.Reply MotionJson.t) (motion : string)
    (context : MotionContext.t) :
  GeminiService.analyzeMotionContext API_KEY reply motion = Resolved context ->
  GeminiService.has_api_key API_KEY = true
  /\ MotionContext.detectedLanguage context <> ""
  /\ MotionContext.backgroundInfo context <> ""
  /\ (forall answer, reply = GeminiService.Parsed answer ->
        MotionContext.specificCriteria context
        = match MotionJson.specificCriteria answer with
          | Some criteria => criteria
          | None => []
          end)
  /\ (reply = GeminiService.ApiError \/ reply = GeminiService.Malformed ->
      context = GeminiService.fallback_context
      /\ List.length (MotionContext.specificCriteria context) = 1%nat).
Proof.
  unfold GeminiService.analyzeMotionContext.
  destruct (GeminiService.has_api_key API_KEY); cbn; [| discriminate].
  destruct reply as [| | answer]; intros [= <-]; cbn; conjuncts; auto;
    try discriminate; try (apply str_or_nonempty; discriminate).
  - intros answer' [= <-]. reflexivity.
  - intros [H | H]; discriminate H.
Qed.

Lemma motion_context_defaults_witness :
  MotionContext.specificCriteria
    (MotionContext.mk "Unknown" [] "No context found.") = [].
Proof.
  destruct (motion_context_defaults (Some "key")
              (GeminiService.Parsed (MotionJson.mk (Some "") None None))
              Examples.motion
              (MotionContext.mk "Unknown" [] "No context found.") eq_refl)
    as (_ & _ & _ & H & _).
  exact (H _ eq_refl).
Defined.

End Context.

(** ** One write to a speech timer *)

Section TimerSteps.

Import DebateSession DebateDashboard Lifecycle.

(** X19.  What a write does to a speech timer, against its render.  In
    every session the render of a reached session hands to [onUpdate], a
    speaker's time left is as in the render, or one less (only when the
    render shows the timer running with time left, and it keeps running),
    or back at [SPEECH_TIME_SECONDS] with the timer stopped.  So a write of
    a render that shows the timer paused leaves the time as that render
    shows it, unless it starts or resets the timer.  The comparison is with
    the render: an evaluation that lands puts the time back to what it was
    when Record was clicked. *)
Theorem write_moves_time_by_tick_or_reset (r u : DebateSession.t) :
  reachable r -> Store.writes r u ->
  forall i sp, nth_error (speakers r) i = Some sp ->
    exists sp',
      nth_error (speakers u) i = Some sp'
      /\ Speaker.id sp' = Speaker.id sp
      /\ (Speaker.speechTimeLeft sp' = Speaker.speechTimeLeft sp
          \/ (Speaker.speechTimeLeft sp' = Speaker.speechTimeLeft sp - 1
              /\ 0 < Speaker.speechTimeLeft sp
              /\ Speaker.isSpeechTimerRunning sp = true
              /\ Speaker.isSpeechTimerRunning sp' = true)
          \/ (Speaker.speechTimeLeft sp' = SPEECH_TIME_SECONDS
              /\ Speaker.isSpeechTimerRunning sp' = false))
      /\ (Speaker.isSpeechTimerRunning sp = false ->
          Speaker.isSpeechTimerRunning sp' = false ->
          Speaker.speechTimeLeft sp' = Speaker.speechTimeLeft sp
          \/ Speaker.speechTimeLeft sp' = SPEECH_TIME_SECONDS).
Proof.
  intros Hr Hw i sp Hi. apply writes_written in Hw.
  pose proof (reachable_invariant r Hr) as Hinv.
  destruct (written_speakers r u Hw) as [-> | (speaker & upd & Hsp & Hu & ->)].
  { exists sp. auto. }
  rewrite newSpeakers_nth_error, Hi. cbn.
  destruct (String.eqb_spec (Speaker.id sp) (Speaker.id speaker)) as [He |];
    [| exists sp; auto].
  assert (speaker = sp)
    by (symmetry; apply (same_id_same_speaker r); eauto using nth_error_In).
  subst speaker. exists (merge sp upd).
  destruct Hu; cbn; conjuncts; auto; try congruence.
  right. left. auto.
Qed.

Lemma write_moves_time_by_tick_or_reset_witness :
  exists sp',
    nth_error
      (speakers
         (stored Examples.speechStarted
            (handleUpdateSpeaker "1" (SpeakerRecorder.upd_speechTimeLeft 439)
               Examples.speechStarted))) 0
    = Some sp'
    /\ Speaker.id sp' = "1".
Proof.
  destruct (write_moves_time_by_tick_or_reset Examples.speechStarted
              (stored Examples.speechStarted
                 (handleUpdateSpeaker "1"
                    (SpeakerRecorder.upd_speechTimeLeft 439)
                    Examples.speechStarted))
              speechStarted_reachable)
    with (i := 0%nat)
         (sp := Speaker.mk "1" PM OG "" false None None None None 440 true)
    as (sp' & Hnth & Hid & _).
  - apply writes_written.
    apply Store.written_speaker
      with (speaker := Speaker.mk "1" PM OG "" false None None None None 440 true)
           (updates := SpeakerRecorder.upd_speechTimeLeft 439);
      [reflexivity | vm_compute; tauto |].
    now apply (update_tick
                 (Speaker.mk "1" PM OG "" false None None None None 440 true)).
  - reflexivity.
  - exists sp'. split; assumption.
Defined.

End TimerSteps.

(** ** Starting a debate *)

Section Start.

Import DebateSession DebateDashboard Lifecycle Wiring.

(** X20.  When the start succeeds.  For a session in phase ['setup'],
    [handleAnalyzeAndStart] with its call to [analyzeMotionContext] leaves
    ['setup'] exactly when the motion is not blank, the browser is online
    and an API key is set.  The session then has the motion as topic, its
    title, a motion context, and is in ['prep'] with the full preparation
    time, or in ['debate'] with none when prep is skipped; speakers, id and
    rankings are untouched.  In every other case the session is unchanged. *)
Theorem start_succeeds_iff (API_KEY : option string)
    (reply : GeminiService.Reply MotionJson.t) (motionInput : string)
    (isOnline skipPrepTime : bool) (s : DebateSession.t) :
  phase s = setup ->
  let s' :=
    stored s (analyzeAndStart API_KEY reply motionInput isOnline skipPrepTime s)
  in
  (phase s' <> setup
   <-> trim_is_empty motionInput = false /\ isOnline = true
       /\ GeminiService.has_api_key API_KEY = true)
  /\ (phase s' <> setup ->
      phase s' = (if skipPrepTime then debate else prep)
      /\ prepTimeLeft s' = (if skipPrepTime then 0 else PREP_TIME_SECONDS)
      /\ topic s' = motionInput /\ title s' = title_of motionInput
      /\ motionContext s'
         = match GeminiService.analyzeMotionContext API_KEY reply motionInput with
           | Resolved context => Some context
           | Rejected => None
           end
      /\ speakers s' = speakers s /\ id s' = id s
      /\ finalRankings s' = finalRankings s
      /\ isAdjudicating s' = isAdjudicating s)
  /\ (phase s' = setup -> s' = s).
Proof.
  intros Hph. unfold analyzeAndStart, handleAnalyzeAndStart.
  assert (Hstay : forall P : Prop,
            ~ P ->
            (phase s <> setup <-> P)
            /\ (phase s <> setup ->
                phase s = (if skipPrepTime then debate else prep)
                /\ prepTimeLeft s = (if skipPrepTime then 0 else PREP_TIME_SECONDS)
                /\ topic s = motionInput /\ title s = title_of motionInput
                /\ motionContext s
                   = match GeminiService.analyzeMotionContext API_KEY reply
                             motionInput with
                     | Resolved context => Some context
                     | Rejected => None
                     end
                /\ speakers s = speakers s /\ id s = id s
                /\ finalRankings s = finalRankings s
                /\ isAdjudicating s = isAdjudicating s)
            /\ (phase s = setup -> s = s)).
  { intros P HP. conjuncts; auto; try contradiction. tauto. }
  destruct (trim_is_empty motionInput); cbn [stored].
  { apply Hstay. intros (H & _). discriminate H. }
  destruct isOnline; cbn [negb stored].
  2: { apply Hstay. intros (_ & H & _). discriminate H. }
  pose proof (analyzeMotionContext_rejects API_KEY reply motionInput) as Hrej.
  destruct (GeminiService.analyzeMotionContext API_KEY reply motionInput)
    as [context |]; cbn [stored].
  - assert (Hkey : GeminiService.has_api_key API_KEY = true).
    { destruct (GeminiService.has_api_key API_KEY); [reflexivity |].
      destruct Hrej as (_ & Hrej). specialize (Hrej eq_refl).
      discriminate Hrej. }
    cbn. conjuncts; auto.
    + split; [auto | intros _; destruct skipPrepTime; discriminate].
    + intros _. conjuncts; auto.
    + intros H. destruct skipPrepTime; discriminate H.
  - apply Hstay. intros (_ & _ & H).
    destruct Hrej as (Hrej & _). rewrite Hrej in H by reflexivity.
    discriminate H.
Qed.

Lemma start_succeeds_iff_witness :
  phase
    (stored Examples.fresh
       (analyzeAndStart (Some "key")
          (GeminiService.Parsed
             (MotionJson.mk (Some "English") (Some ["Animal welfare"]) None))
          Examples.motion true false Examples.fresh))
  = prep.
Proof.
  destruct (start_succeeds_iff (Some "key")
              (GeminiService.Parsed
                 (MotionJson.mk (Some "English") (Some ["Animal welfare"]) None))
              Examples.motion true false Examples.fresh eq_refl)
    as (_ & H & _).
  apply H. discriminate.
Defined.

End Start.

(** ** Writing a session back *)

Section WriteBack.

Import DebateSession App Collection.

(** [updateSession] neither adds nor removes a session.  For every
    state and every session given, the ids of the collection, their order,
    the active id and the sort order are unchanged, and each session whose
    id differs from the given one is the same value at the same place.
    When no session has the given id, nothing changes at all; and of two
    updates with the same id the later one wins. *)
Theorem updateSession_replaces_in_place (updated : DebateSession.t)
    (st : State) :
  ids (updateSession updated st) = ids st
  /\ activeSessionId (updateSession updated st) = activeSessionId st
  /\ sortOrder (updateSession updated st) = sortOrder st
  /\ (forall i x, nth_error (sessions st) i = Some x ->
        nth_error (sessions (updateSession updated st)) i
        = Some (if String.eqb (id x) (id updated) then updated else x))
  /\ (~ In (id updated) (ids st) -> updateSession updated st = st)
  /\ (forall later, id later = id updated ->
        updateSession later (updateSession updated st)
        = updateSession later st).
Proof.
  conjuncts; auto using updateSession_ids.
  - intros i x Hi. cbn. now rewrite nth_error_map, Hi.
  - intros Hout. destruct st as [l active order].
    unfold updateSession; cbn in *. f_equal.
    rewrite <- (map_id l) at 2. apply map_ext_in. intros x Hx.
    destruct (String.eqb_spec (id x) (id updated)) as [He |]; [| reflexivity].
    exfalso. apply Hout. rewrite <- He. now apply in_map.
  - intros later Hid. now apply updateSession_twice.
Qed.

End WriteBack.

(** ** Counting down *)

Section Countdown.

Import DebateSession DebateDashboard Lifecycle.
Local Open Scope Z_scope.

Lemma with_prepTimeLeft_id (s : DebateSession.t) :
  with_prepTimeLeft (prepTimeLeft s) s = s.
Proof. now destruct s. Qed.

(** X22.  The prep countdown.  From a session in phase ['prep'] with a time
    left that is not negative, [n] seconds of the prep timer take [n]
    seconds off the time left, stopping at 0, and change nothing else: the
    phase is still ['prep'], also when the time is up. *)
Theorem prep_countdown (s : DebateSession.t) (n : nat) :
  phase s = prep -> 0 <= prepTimeLeft s ->
  Nat.iter n prepTick s
  = with_prepTimeLeft (Z.max 0 (prepTimeLeft s - Z.of_nat n)) s.
Proof.
  intros Hph Hpos. induction n as [| n IH].
  - change (Nat.iter 0 prepTick s) with s.
    replace (Z.max 0 (prepTimeLeft s - Z.of_nat 0))
      with (prepTimeLeft s) by lia.
    now rewrite with_prepTimeLeft_id.
  - rewrite Nat.iter_succ, IH. unfold prepTick, prepTimerEffect.
    cbn [phase prepTimeLeft with_prepTimeLeft]. rewrite Hph.
    destruct (Z.gtb_spec (Z.max 0 (prepTimeLeft s - Z.of_nat n)) 0)
      as [Hgt | Hle].
    + cbn. unfold with_prepTimeLeft; cbn. f_equal. lia.
    + unfold with_prepTimeLeft; cbn. f_equal. lia.
Qed.

Lemma prep_countdown_witness :
  Nat.iter 1000 prepTick Examples.inPrep
  = with_prepTimeLeft 0 Examples.inPrep.
Proof.
  rewrite (prep_countdown Examples.inPrep 1000 eq_refl);
    [reflexivity | vm_compute; congruence].
Defined.

Lemma find_newSpeakers (l : list Speaker.t) (sp : Speaker.t)
    (u : PartialSpeaker.t) :
  NoDup (map Speaker.id l) -> In sp l -> PartialSpeaker.id u = None ->
  find (fun x => String.eqb (Speaker.id x) (Speaker.id sp))
       (newSpeakers l (Speaker.id sp) u)
  = Some (merge sp u).
Proof.
  intros Hnd Hin Hu. induction l as [| x l IH]; [contradiction |].
  cbn in Hnd. inversion Hnd as [| ? ? Hx Hl]; subst.
  cbn [newSpeakers map find].
  destruct (String.eqb_spec (Speaker.id x) (Speaker.id sp)) as [He | Hne].
  - assert (x = sp).
    { destruct Hin as [-> | Hin]; [reflexivity |].
      exfalso. apply Hx. rewrite He. now apply in_map. }
    subst x. cbn. rewrite Hu. now rewrite String.eqb_refl.
  - apply String.eqb_neq in Hne. rewrite Hne.
    apply IH; [assumption |]. destruct Hin as [-> | Hin]; [| assumption].
    apply String.eqb_neq in Hne. congruence.
Qed.

Lemma newSpeakers_time_twice (l : list Speaker.t) (id : string) (m m' : Z) :
  newSpeakers (newSpeakers l id (SpeakerRecorder.upd_speechTimeLeft m)) id
    (SpeakerRecorder.upd_speechTimeLeft m')
  = newSpeakers l id (SpeakerRecorder.upd_speechTimeLeft m').
Proof.
  unfold newSpeakers. rewrite map_map. apply map_ext. intros x.
  destruct (String.eqb (Speaker.id x) id) eqn:Hx; cbn; now rewrite Hx.
Qed.

Lemma newSpeakers_same_time (l : list Speaker.t) (sp : Speaker.t) :
  NoDup (map Speaker.id l) -> In sp l ->
  newSpeakers l (Speaker.id sp)
    (SpeakerRecorder.upd_speechTimeLeft (Speaker.speechTimeLeft sp))
  = l.
Proof.
  intros Hnd Hin. unfold newSpeakers.
  rewrite <- (map_id l) at 2. apply map_ext_in. intros x Hx.
  destruct (String.eqb_spec (Speaker.id x) (Speaker.id sp)) as [He |];
    [| reflexivity].
  assert (x = sp) by (eapply NoDup_map_same; eauto). subst x.
  now destruct sp.
Qed.

(** X23.  The speech countdown.  In a reached session in phase ['debate'],
    for a speaker whose timer is running, [n] seconds of the speaker's
    timer take [n] seconds off the speech time left, stopping at 0; the
    speaker is otherwise the same, the flag included, and no other speaker
    and nothing else in the session changes. *)
Theorem speech_countdown (s : DebateSession.t) (sp : Speaker.t) (n : nat) :
  reachable s -> phase s = debate -> In sp (speakers s) ->
  Speaker.isSpeechTimerRunning sp = true ->
  Nat.iter n (speechTick (Speaker.id sp)) s
  = with_speakers
      (newSpeakers (speakers s) (Speaker.id sp)
         (SpeakerRecorder.upd_speechTimeLeft
            (Z.max 0 (Speaker.speechTimeLeft sp - Z.of_nat n))))
      s.
Proof.
  intros Hs Hph Hin Hrun.
  pose proof (reachable_invariant s Hs) as Hinv.
  assert (Hnd : NoDup (map Speaker.id (speakers s))).
  { rewrite (roster_ids s Hinv). repeat constructor; cbn; intuition discriminate. }
  assert (Hpos : 0 <= Speaker.speechTimeLeft sp).
  { pose proof (inv_speech s Hinv) as Hall. rewrite Forall_forall in Hall.
    apply Hall in Hin. unfold timeInRange in Hin. lia. }
  induction n as [| n IH].
  - change (Nat.iter 0 (speechTick (Speaker.id sp)) s) with s.
    replace (Z.max 0 (Speaker.speechTimeLeft sp - Z.of_nat 0))
      with (Speaker.speechTimeLeft sp) by lia.
    rewrite newSpeakers_same_time by assumption.
    now rewrite with_speakers_same.
  - rewrite Nat.iter_succ, IH.
    replace (Z.max 0 (Speaker.speechTimeLeft sp - Z.of_nat (S n)))
      with (Z.max 0 (Z.max 0 (Speaker.speechTimeLeft sp - Z.of_nat n) - 1))
      by lia.
    assert (Hm : 0 <= Z.max 0 (Speaker.speechTimeLeft sp - Z.of_nat n)) by lia.
    generalize dependent (Z.max 0 (Speaker.speechTimeLeft sp - Z.of_nat n)).
    intros m _ Hm. unfold speechTick.
    cbn [speakers with_speakers].
    rewrite find_newSpeakers by (assumption || reflexivity).
    assert (Heff : SpeakerRecorder.speechTimerEffect
                     (merge sp (SpeakerRecorder.upd_speechTimeLeft m))
                   = if m >? 0
                     then Some (SpeakerRecorder.OnUpdateSpeaker (Speaker.id sp)
                                  (SpeakerRecorder.upd_speechTimeLeft (m - 1)))
                     else None).
    { unfold SpeakerRecorder.speechTimerEffect. cbn. now rewrite Hrun. }
    rewrite Heff.
    destruct (Z.gtb_spec m 0) as [Hgt | Hle].
    + unfold handleUpdateSpeaker. cbn [stored speakers with_speakers].
      rewrite newSpeakers_time_twice.
      replace (Z.max 0 (m - 1)) with (m - 1) by lia. reflexivity.
    + replace (Z.max 0 (m - 1)) with m by lia. reflexivity.
Qed.

Lemma speech_countdown_witness :
  nth_error
    (speakers
       (Nat.iter 500
          (speechTick
             (Speaker.id (Speaker.mk "1" PM OG "" false None None None None 440 true)))
          Examples.speechStarted)) 0
  = Some (Speaker.mk "1" PM OG "" false None None None None 0 true).
Proof.
  rewrite (speech_countdown Examples.speechStarted
             (Speaker.mk "1" PM OG "" false None None None None 440 true) 500
             speechStarted_reachable eq_refl).
  - reflexivity.
  - vm_compute. tauto.
  - reflexivity.
Defined.

End Countdown.

(** ** The roster *)

Section Roster.

Import DebateSession Lifecycle.

(** X11.  The roster of a session never changes.  In every reached session
    there are exactly 8 speakers, with the ids 1 to 8, the eight roles in
    speaking order and the teams OG, OO, OG, OO, CG, CO, CG, CO: each team
    has exactly two speakers, and the four opening speakers come first. *)
Theorem roster_is_fixed (s : DebateSession.t) :
  reachable s ->
  List.length (speakers s) = 8%nat
  /\ map Speaker.id (speakers s) = ["1"; "2"; "3"; "4"; "5"; "6"; "7"; "8"]
  /\ map Speaker.role (speakers s) = [PM; LO; DPM; DLO; MG; MO; GW; OW]
  /\ map Speaker.team (speakers s) = [OG; OO; OG; OO; CG; CO; CG; CO]
  /\ forall t : Team,
       List.length
         (filter (fun sp => String.eqb (Team_value (Speaker.team sp))
                              (Team_value t))
                 (speakers s))
       = 2%nat.
Proof.
  intros Hs. pose proof (inv_roster s (reachable_invariant s Hs)) as H.
  assert (Hids : map Speaker.id (speakers s)
                 = ["1"; "2"; "3"; "4"; "5"; "6"; "7"; "8"]).
  { apply (f_equal (map (fun x => fst (fst x)))) in H.
    now rewrite !map_map in H. }
  assert (Hroles : map Speaker.role (speakers s)
                   = [PM; LO; DPM; DLO; MG; MO; GW; OW]).
  { apply (f_equal (map (fun x => snd (fst x)))) in H.
    now rewrite !map_map in H. }
  assert (Hteams : map Speaker.team (speakers s)
                   = [OG; OO; OG; OO; CG; CO; CG; CO]).
  { apply (f_equal (map snd)) in H. now rewrite !map_map in H. }
  conjuncts; auto.
  - apply (f_equal (@List.length string)) in Hids.
    now rewrite length_map in Hids.
  - intros t.
    assert (Hfilter : forall l : list Speaker.t,
              List.length
                (filter (fun sp => String.eqb (Team_value (Speaker.team sp))
                                     (Team_value t)) l)
              = List.length
                  (filter (fun x => String.eqb (Team_value x) (Team_value t))
                          (map Speaker.team l))).
    { induction l as [| x l IH]; cbn; [reflexivity |].
      destruct (String.eqb _ _); cbn; now rewrite IH. }
    rewrite Hfilter, Hteams. now destruct t.
Qed.

Lemma roster_is_fixed_witness :
  map Speaker.role (speakers Examples.allScored)
  = [PM; LO; DPM; DLO; MG; MO; GW; OW].
Proof.
  apply (roster_is_fixed Examples.allScored allScored_reachable).
Defined.

End Roster.

(** ** Writes that land late *)

Section Late.

Import DebateSession DebateDashboard Lifecycle Store Wiring.

Lemma history_nonempty (h : list DebateSession.t) : history h -> h <> [].
Proof. intros []; discriminate. Qed.

(** All the sessions the store holds under an id have the creation time
    and [isPrepTime] of the fresh one. *)
Lemma history_identity (h : list DebateSession.t) :
  history h ->
  forall a b, In a h -> In b h ->
    id a = id b /\ createdAt a = createdAt b /\ isPrepTime a = isPrepTime b.
Proof.
  induction 1 as [i title now | h r u Hh IH Hr Hw].
  - intros a b [<- | []] [<- | []]. auto.
  - apply writes_written in Hw.
    assert (Hu : id u = id r /\ createdAt u = createdAt r
                 /\ isPrepTime u = isPrepTime r) by (now destruct Hw).
    destruct Hu as (H1 & H2 & H3).
    intros a b [<- | Ha] [<- | Hb]; auto.
    + destruct (IH r b Hr Hb) as (E1 & E2 & E3).
      rewrite H1, H2, H3. auto.
    + destruct (IH a r Ha Hr) as (E1 & E2 & E3).
      rewrite H1, H2, H3. auto.
Qed.

(** Once a write has landed the stored session is never in phase
    ['setup'] again: only the fresh session, the last of the list, is. *)
Lemma history_leaves_setup (h : list DebateSession.t) :
  history h -> Forall (fun s => phase s <> setup) (removelast h).
Proof.
  induction 1 as [i title now | h r u Hh IH Hr Hw]; [constructor |].
  pose proof (history_nonempty h Hh) as Hne.
  destruct h as [| x h]; [contradiction |].
  change (removelast (u :: x :: h)) with (u :: removelast (x :: h)).
  constructor; [| exact IH].
  apply writes_written in Hw.
  destruct Hw as [Hph Hpos | motionInput skip context Hph Hblank | Hph
                  | speaker upd Hph Hsp Hu | Hph | rankings adjudication Hph
                  | Hph]; cbn; try congruence.
  now destruct skip.
Qed.

Lemma inDebate_history : history [Examples.inDebate; Examples.fresh].
Proof.
  apply history_write with (r := Examples.fresh);
    [apply history_fresh | now left |].
  apply writes_written. now apply written_start.
Qed.

Lemma complete_written (s : DebateSession.t) (speaker : Speaker.t)
    (score : Z) :
  phase s = debate -> In speaker (speakers s) ->
  writes s (Examples.complete s (Speaker.id speaker, score)).
Proof.
  intros Hph Hin. apply writes_written. unfold Examples.complete.
  apply written_speaker; [assumption | assumption | constructor].
Qed.

(** Two speeches are recorded in the same render of the debate view.  The
    first evaluation lands and the Prime Minister is completed; the second
    lands with a spread of the same render, and in the session the store
    then holds the Prime Minister is not completed any more. *)
Lemma late_evaluation_undoes_completion :
  history [Examples.complete Examples.inDebate ("2", 15);
           Examples.complete Examples.inDebate ("1", 18);
           Examples.inDebate; Examples.fresh]
  /\ map Speaker.isCompleted
       (speakers (Examples.complete Examples.inDebate ("1", 18)))
     = [true; false; false; false; false; false; false; false]
  /\ map Speaker.isCompleted
       (speakers (Examples.complete Examples.inDebate ("2", 15)))
     = [false; true; false; false; false; false; false; false]
  /\ App.sessions
       (run [OnUpdate (Examples.complete Examples.inDebate ("2", 15))]
          (run [OnUpdate (Examples.complete Examples.inDebate ("1", 18))]
             (App.mkState [Examples.inDebate] "default-1" App.date)))
     = [Examples.complete Examples.inDebate ("2", 15)].
Proof.
  conjuncts; try reflexivity.
  apply history_write with (r := Examples.inDebate); [| cbn; auto |].
  - apply history_write with (r := Examples.inDebate);
      [apply inDebate_history | now left |].
    apply (complete_written Examples.inDebate (initial_speaker "1" PM OG));
      [reflexivity | vm_compute; tauto].
  - apply (complete_written Examples.inDebate (initial_speaker "2" LO OO));
      [reflexivity | vm_compute; tauto].
Qed.

(** Record is clicked in the render in which the Prime Minister's timer
    has just been started; the speech lasts its 440 seconds and the timer
    is at 0; then the evaluation lands with a spread of the render of the
    click: the store holds the time left back at 440 with the flag set,
    and a tick is armed again, with no reset. *)
Lemma late_evaluation_rewinds_timer :
  reachable Examples.speechOver
  /\ map Speaker.speechTimeLeft (firstn 1 (speakers Examples.speechOver))
     = [0]
  /\ writes Examples.speechStarted
       (Examples.complete Examples.speechStarted ("1", 18))
  /\ App.sessions
       (run (evaluateSpeech (Some "key") (Resolved "UklGRg==")
               (GeminiService.Parsed
                  (SpeechJson.mk (Some "transcript") (Some 18)
                     (Some "feedback")))
               (Speaker.mk "1" PM OG "" false None None None None 440 true)
               "audio" Examples.speechStarted)
          (App.mkState [Examples.speechOver] "default-1" App.date))
     = [Examples.complete Examples.speechStarted ("1", 18)]
  /\ map (fun sp => (Speaker.speechTimeLeft sp,
                     Speaker.isSpeechTimerRunning sp,
                     SpeakerRecorder.speechTimerEffect sp))
       (firstn 1
          (speakers (Examples.complete Examples.speechStarted ("1", 18))))
     = [(440, true,
         Some (SpeakerRecorder.OnUpdateSpeaker "1"
                 (SpeakerRecorder.upd_speechTimeLeft 439)))].
Proof.
  conjuncts; try reflexivity.
  - apply speechOver_reachable.
  - apply (complete_written Examples.speechStarted
             (Speaker.mk "1" PM OG "" false None None None None 440 true));
      [reflexivity | vm_compute; tauto].
Qed.

(** A start is pending in a render of the setup view; the debate is
    started from another render of it and is under way; then the pending
    start lands: the stored session is back in ['prep'], under the other
    motion. *)
Lemma late_start_puts_session_back :
  history [Examples.otherStart; Examples.inDebate; Examples.fresh]
  /\ phase Examples.inDebate = debate
  /\ topic Examples.inDebate = Examples.motion
  /\ phase Examples.otherStart = prep
  /\ topic Examples.otherStart = "This House would abolish homework".
Proof.
  conjuncts; try reflexivity.
  apply history_write with (r := Examples.fresh);
    [apply inDebate_history | cbn; auto |].
  apply writes_written. now apply written_start.
Qed.

End Late.

(** ** Handlers that overlap *)

Section Overlap.

Import DebateSession DebateDashboard Wiring.

(** X21.  Of two overlapping handlers the later write wins.  When effects
    of the dashboard of a session, from one render, are run after effects
    from another render of the same session, and they write at all, the
    collection ends exactly as if the earlier effects had never run: it
    holds the last session the later handler wrote, a spread of the
    session of its own render.  So the result of an evaluation that
    arrives after the finish has stored the rankings puts the session back
    as that recorder saw it, without the rankings. *)
Theorem later_handler_overwrites_earlier (st : App.State)
    (s1 s2 : DebateSession.t) (earlier later : list Effect) :
  fromDashboard s1 earlier -> fromDashboard s2 later -> id s1 = id s2 ->
  (exists u, In (OnUpdate u) later) ->
  run later (run earlier st) = run later st
  /\ run later st = App.updateSession (stored s2 later) st.
Proof.
  intros H1 H2 Hid Hwrites.
  pose proof (fromDashboard_id s1 earlier H1) as Hids1.
  pose proof (fromDashboard_id s2 later H2) as Hids2.
  assert (Hrun : run later st = App.updateSession (stored s2 later) st)
    by (apply (run_from_equal_updates later (id s2)); auto).
  split; [| exact Hrun]. rewrite Hrun.
  apply (run_from_equal_updates later (id s2)); auto.
  intros v Hv. apply (updateSession_after_run earlier (id s2)); auto.
  intros u Hu. rewrite <- Hid. now apply Hids1.
Qed.

Lemma later_handler_overwrites_earlier_witness :
  map (fun s => (phase s, finalRankings s))
    (App.sessions
       (run (evaluateSpeech (Some "key") (Resolved "UklGRg==")
               (GeminiService.Parsed (SpeechJson.mk None (Some 17) None))
               (initial_speaker "3" DPM OG) "audio" Examples.inDebate)
          (run (finishDebate (Some "key")
                  (GeminiService.Parsed
                     (RankingResult.mk (Some Examples.rankList) (Some "RFD")))
                  true Examples.inDebate)
             (App.mkState [Examples.inDebate] "default-1" App.date))))
  = [(debate, None)].
Proof.
  destruct (later_handler_overwrites_earlier
              (App.mkState [Examples.inDebate] "default-1" App.date)
              Examples.inDebate Examples.inDebate
              (finishDebate (Some "key")
                 (GeminiService.Parsed
                    (RankingResult.mk (Some Examples.rankList) (Some "RFD")))
                 true Examples.inDebate)
              (evaluateSpeech (Some "key") (Resolved "UklGRg==")
                 (GeminiService.Parsed (SpeechJson.mk None (Some 17) None))
                 (initial_speaker "3" DPM OG) "audio" Examples.inDebate))
    as (Hrun & _).
  - apply from_finish.
  - apply from_update.
  - reflexivity.
  - eexists. left. reflexivity.
  - rewrite Hrun. reflexivity.
Defined.

End Overlap.
